(** * pyblooming: bitmaps and Bloom filters over memory-mapped bytes

    A shallow embedding of [pyblooming/cbitmaputil.c], [pyblooming/cbitmap.pyx]
    and [pyblooming/cbloom.pyx], and the properties of the specification
    proved over it.

    Conventions of the embedding.
    - A [size_t] is a [Z] reduced with [wrap64] wherever the C arithmetic can
      leave the range; a Python integer is a [Z], checked against the range
      of the C type where it is converted to one.
    - A byte of the mapped region is a [byte]; [byte.of_Z] is the store into
      an [unsigned char] (reduction modulo 256) and [byte.unsigned] the load.
    - A Python call either returns a value or raises: [result].  A method
      that mutates its object returns the object after the call as well, also
      when it raises, because the mutation made before the [raise] stays.
    - An access of C memory outside the region it belongs to (or through a
      NULL pointer) has no defined behaviour; the embedding ends such a call
      with [MemoryFault], so that every theorem that obtains another result
      also shows that no such access happens.
    - Loop counters declared [int] are natural numbers, and the scratch
      buffer obtained from [malloc] is a list of [size_t] slots: allocation
      and the width of the counters are not part of the embedding. *)

From Stdlib Require Import ZArith List Lia Bool Reals Lra.
From coqutil Require Import Byte Word.LittleEndianList.
From stdpp Require Import base list.

Local Open Scope Z_scope.

(** ** Machine integers *)

Definition wrap64 (z : Z) : Z := z mod 2 ^ 64.

(** ** Outcomes of a call *)

Inductive exn : Type :=
| ValueError
| OverflowError
| ZeroDivisionError
| TypeError
| StructError
| OSError
| MemoryFault.

Inductive result (A : Type) : Type :=
| Ok (a : A)
| Raise (e : exn).

Arguments Ok {A} a.
Arguments Raise {A} e.

(** ** The operating system, as far as [flush] and [close] see it

    Every system call takes its return value from [pending] (0 when nothing
    is pending) and is recorded in [trace], newest first. *)

Inductive syscall : Type := Msync | Fsync | Munmap | Fclose.

Record OS : Type := mkOS {
  pending : list Z;
  trace : list syscall
}.

Definition sys (c : syscall) (w : OS) : Z * OS :=
  match pending w with
  | [] => (0, mkOS [] (c :: trace w))
  | r :: rs => (r, mkOS rs (c :: trace w))
  end.

(** [cbitmaputil.c], [flush(filedes, addr, len)]. *)
Definition c_flush (filedes : Z) (w : OS) : Z * OS :=
  if filedes =? -1 then (0, w)
  else
    let (res, w1) := sys Msync w in
    if res =? -1 then (-1, w1)
    else
      let (res', w2) := sys Fsync w1 in
      if res' =? -1 then (-1, w2) else (0, w2).

(** ** [cbitmap.pyx]: class [Bitmap] *)

Module Bitmap.

(** [fileobj] and [mmap] tell whether the attribute is set (not [None],
    not [NULL]); [region] holds the bytes [self.mmap] points to, which stay
    what they are when the mapping is removed.  [self.size] is the length of
    the region. *)
Record t : Type := mk {
  fileno : Z;
  fileobj : bool;
  mmap : bool;
  region : list byte
}.

Definition size (b : t) : Z := Z.of_nat (length (region b)).

Definition with_region (b : t) (r : list byte) : t :=
  mk (fileno b) (fileobj b) (mmap b) r.

(** [__len__]: [8 * self.size] in [size_t], returned through [Py_ssize_t]. *)
Definition __len__ (b : t) : result Z :=
  let n := wrap64 (8 * size b) in
  if 2 ^ 63 <=? n then Raise OverflowError else Ok n.

(** Conversion of a Python integer to the [size_t] of an index. *)
Definition as_size_t (z : Z) : result Z :=
  if (z <? 0) || (2 ^ 64 <=? z) then Raise OverflowError else Ok z.

(** Conversion of a Python integer to [unsigned int]. *)
Definition as_uint (z : Z) : result Z :=
  if (z <? 0) || (2 ^ 32 <=? z) then Raise OverflowError else Ok z.

(** [self.mmap[n]], read. *)
Definition load (b : t) (n : Z) : result byte :=
  if mmap b && (0 <=? n) then
    match region b !! Z.to_nat n with
    | Some c => Ok c
    | None => Raise MemoryFault
    end
  else Raise MemoryFault.

(** [self.mmap[n] = v], with [v] an [int] stored into an [unsigned char]. *)
Definition store (b : t) (n : Z) (v : Z) : result t :=
  if mmap b && (0 <=? n) then
    if n <? size b
    then Ok (with_region b (<[Z.to_nat n := byte.of_Z v]> (region b)))
    else Raise MemoryFault
  else Raise MemoryFault.

(** [__getitem__(self, size_t idx)]:
    [<int> (self.mmap[idx >> 3] >> (7 - idx % 8)) & 0x1]. *)
Definition __getitem__ (b : t) (idx : Z) : result Z :=
  match as_size_t idx with
  | Raise e => Raise e
  | Ok idx =>
      match load b (Z.shiftr idx 3) with
      | Raise e => Raise e
      | Ok c => Ok (Z.land (Z.shiftr (byte.unsigned c) (7 - idx mod 8)) 1)
      end
  end.

(** [__setitem__(self, size_t idx, unsigned int val)]. *)
Definition __setitem__ (b : t) (idx : Z) (val : Z) : result t :=
  match as_size_t idx with
  | Raise e => Raise e
  | Ok idx =>
      match as_uint val with
      | Raise e => Raise e
      | Ok val =>
          match load b (Z.shiftr idx 3) with
          | Raise e => Raise e
          | Ok c =>
              if val =? 0
              then store b (Z.shiftr idx 3)
                     (Z.land (byte.unsigned c) (Z.lnot (Z.shiftl 1 (7 - idx mod 8))))
              else store b (Z.shiftr idx 3)
                     (Z.lor (byte.unsigned c) (Z.shiftl 1 (7 - idx mod 8)))
          end
      end
  end.

(** [flush]: the C helper without the interpreter lock, then the flush of
    the Python file object, which has nothing buffered. *)
Definition flush (b : t) (w : OS) : OS * result unit :=
  if mmap b then
    let (flushres, w1) := c_flush (fileno b) w in
    if flushres =? -1 then (w1, Raise OSError) else (w1, Ok tt)
  else (w, Ok tt).

(** [close(self, flush=True)]. *)
Definition close (b : t) (do_flush : bool) (w : OS) : t * OS * result unit :=
  let (w1, r) := if do_flush then flush b w else (w, Ok tt) in
  match r with
  | Raise e => (b, w1, Raise e)
  | Ok _ =>
      let (b2, w2) :=
        if mmap b
        then (mk (fileno b) (fileobj b) false (region b), snd (sys Munmap w1))
        else (b, w1) in
      let (b3, w3) :=
        if fileobj b2
        then (mk (fileno b2) false (mmap b2) (region b2), snd (sys Fclose w2))
        else (b2, w2) in
      (b3, w3, Ok tt)
  end.

(** [__getslice__(self, i, j)]: the bytes [self.mmap[i:j]]. *)
Definition __getslice__ (b : t) (i j : Z) : result (list byte) :=
  if (j <=? i) || (i <? 0) || (size b <? j) then Raise ValueError
  else if mmap b then Ok (take (Z.to_nat (j - i)) (drop (Z.to_nat i) (region b)))
  else Raise MemoryFault.

(** The loop of [__setslice__]: [self.mmap[i+x] = val[x]] for [x] in
    [xrange(size)]; reading [val] past its end is a fault. *)
Fixpoint copy_in (b : t) (i : Z) (val : list byte) (n : nat) (x : nat) : result t :=
  match n with
  | O => Ok b
  | S n' =>
      match val !! x with
      | None => Raise MemoryFault
      | Some c =>
          match store b (i + Z.of_nat x) (byte.unsigned c) with
          | Raise e => Raise e
          | Ok b' => copy_in b' i val n' (S x)
          end
      end
  end.

(** [__setslice__(self, i, j, char* val)]. *)
Definition __setslice__ (b : t) (i j : Z) (val : list byte) : result t :=
  if (j <=? i) || (i <? 0) || (size b <? j) then Raise ValueError
  else copy_in b i val (Z.to_nat (j - i)) 0.

(** An open bitmap whose bit count fits [Py_ssize_t]. *)
Definition ok (b : t) : bool := mmap b && (8 * size b <? 2 ^ 63).

End Bitmap.

(** ** Sequencing of calls that may raise *)

#[global] Instance result_ret : MRet result := fun _ a => Ok a.
#[global] Instance result_bind : MBind result :=
  fun _ _ k r => match r with Ok a => k a | Raise e => Raise e end.

(** ** [struct.pack] and [struct.unpack] for the little-endian formats
    ["<Q"] (8 bytes) and ["<I"] (4 bytes) *)

Definition pack (n : nat) (v : Z) : list byte := le_split n v.

Definition unpack (n : nat) (s : list byte) : result Z :=
  if (length s =? n)%nat then Ok (le_combine s) else Raise StructError.

(** ** [cbloom.pyx]: class [BloomFilter] *)

Module BloomFilter.

Definition SIZE_LEN : Z := 8.
Definition K_NUM_LEN : Z := 4.

(** [extra_buffer]: the bytes of the trailing header. *)
Definition extra_buffer : Z := SIZE_LEN + K_NUM_LEN.

(** The attributes of the class except [info], the dictionary of dynamic
    properties, which no method reads.  [bitmap] is [None] after [close];
    [hashes] is the scratch buffer. *)
Record t : Type := mk {
  bitmap : option Bitmap.t;
  k_num : Z;
  bitmap_size : Z;
  count : Z;
  hashes : list Z;
  offset : Z
}.

(** The object as [__cinit__] finds it: every C attribute zero. *)
Definition blank : t := mk None 0 0 0 [] 0.

Definition with_bitmap (f : t) (b : option Bitmap.t) : t :=
  mk b (k_num f) (bitmap_size f) (count f) (hashes f) (offset f).
Definition with_k_num (f : t) (k : Z) : t :=
  mk (bitmap f) k (bitmap_size f) (count f) (hashes f) (offset f).
Definition with_bitmap_size (f : t) (n : Z) : t :=
  mk (bitmap f) (k_num f) n (count f) (hashes f) (offset f).
Definition with_count (f : t) (n : Z) : t :=
  mk (bitmap f) (k_num f) (bitmap_size f) n (hashes f) (offset f).
Definition with_hashes (f : t) (hs : list Z) : t :=
  mk (bitmap f) (k_num f) (bitmap_size f) (count f) hs (offset f).
Definition with_offset (f : t) (m : Z) : t :=
  mk (bitmap f) (k_num f) (bitmap_size f) (count f) (hashes f) m.

(** Operations on [self.bitmap], which may be [None]. *)
Definition truth (o : option Bitmap.t) : result bool :=
  match o with
  | None => Ok false
  | Some b => n ← Bitmap.__len__ b; Ok (negb (n =? 0))
  end.

Definition getitem (o : option Bitmap.t) (idx : Z) : result Z :=
  match o with
  | None => Raise TypeError
  | Some b => Bitmap.__getitem__ b idx
  end.

Definition setitem (o : option Bitmap.t) (idx val : Z) : result (option Bitmap.t) :=
  match o with
  | None => Raise TypeError
  | Some b => b' ← Bitmap.__setitem__ b idx val; Ok (Some b')
  end.

Definition getslice (o : option Bitmap.t) (i j : Z) : result (list byte) :=
  match o with
  | None => Raise TypeError
  | Some b => Bitmap.__getslice__ b i j
  end.

(** *** Hashing *)

(** The key arrives as [char*]: [len(key)] and the iteration over it stop
    at the first NUL byte. *)
Fixpoint c_str (s : list byte) : list byte :=
  match s with
  | [] => []
  | c :: s' => if byte.unsigned c =? 0 then [] else c :: c_str s'
  end.

Definition fnv_prime : Z := 0x811C9DC5.

(** The four accumulators [(djb_hash, dek_hash, fnv_hash, js_hash)], all
    [size_t], after one more byte. *)
Definition mix (st : Z * Z * Z * Z) (key_val : Z) : Z * Z * Z * Z :=
  let '(djb_hash, dek_hash, fnv_hash, js_hash) := st in
  (wrap64 (wrap64 (wrap64 (Z.shiftl djb_hash 5) + djb_hash) + key_val),
   Z.lxor (Z.lxor (wrap64 (Z.shiftl dek_hash 6)) (Z.shiftr dek_hash 27)) key_val,
   Z.lxor (wrap64 (fnv_hash * fnv_prime)) key_val,
   Z.lxor js_hash
     (wrap64 (wrap64 (wrap64 (Z.shiftl js_hash 5) + key_val) + Z.shiftr js_hash 2))).

(** [(salt >> (j<<3)) & 255] for [j] in [range(sizeof(size_t))]. *)
Definition salt_bytes (salt : Z) : list Z :=
  map (fun j => Z.land (Z.shiftr salt (Z.shiftl j 3)) 255) [0; 1; 2; 3; 4; 5; 6; 7].

(** One round of [_compute_hashes], for round number [i] over the C string
    [key]. *)
Definition round (key : list byte) (i : nat) (salt : Z) : Z * Z * Z * Z :=
  let djb_hash := 5381 in
  let dek_hash := wrap64 (Z.of_nat (length key)) in
  let fnv_hash := 0 in
  let js_hash := 1315423911 in
  let salted :=
    if (0 <? i)%nat
    then fold_left mix (salt_bytes salt) (djb_hash, wrap64 (dek_hash + 8), fnv_hash, js_hash)
    else (djb_hash, dek_hash, fnv_hash, js_hash) in
  fold_left mix (map byte.unsigned key) salted.

(** [rounds = k / 4], one more when [(k & 3) > 0]. *)
Definition rounds (k : Z) : Z :=
  if 0 <? Z.land k 3 then k / 4 + 1 else k / 4.

(** [self.hashes[n] = v]. *)
Definition poke (hs : list Z) (n : nat) (v : Z) : result (list Z) :=
  if (n <? length hs)%nat then Ok (<[n := v]> hs) else Raise MemoryFault.

(** The loop [for i from 0 <= i < rounds], with [n] rounds left. *)
Fixpoint hash_rounds (key : list byte) (n i : nat) (salt : Z) (hs : list Z)
  : result (list Z) :=
  match n with
  | O => Ok hs
  | S n' =>
      let '(djb_hash, dek_hash, fnv_hash, js_hash) := round key i salt in
      hs ← poke hs (i * 4) djb_hash;
      hs ← poke hs (i * 4 + 1) dek_hash;
      hs ← poke hs (i * 4 + 2) fnv_hash;
      hs ← poke hs (i * 4 + 3) js_hash;
      hash_rounds key n' (S i)
        (Z.lxor (Z.lxor (Z.lxor djb_hash dek_hash) fnv_hash) js_hash) hs
  end.

(** [_compute_hashes(self, char* key)]: the scratch buffer after the call.
    [salt] is not initialised before the first round, which does not read
    it. *)
Definition _compute_hashes (f : t) (key : list byte) : result (list Z) :=
  hash_rounds (c_str key) (Z.to_nat (rounds (k_num f))) 0 0 (hashes f).

(** *** Membership *)

(** [offset + (h % m)] in [size_t]; the modulo by zero raises. *)
Definition bit_index (offset h m : Z) : result Z :=
  if m =? 0 then Raise ZeroDivisionError else Ok (wrap64 (offset + h mod m)).

(** The loop of [__contains__], with [n] slots left, at slot [i]; it
    returns the bit indices it tested, in order, and its outcome. *)
Fixpoint contains_loop (bm : option Bitmap.t) (hs : list Z) (m : Z)
         (n i : nat) (offset : Z) : list Z * result bool :=
  match n with
  | O => ([], Ok true)
  | S n' =>
      match hs !! i with
      | None => ([], Raise MemoryFault)
      | Some h =>
          match bit_index offset h m with
          | Raise e => ([], Raise e)
          | Ok idx =>
              match getitem bm idx with
              | Raise e => ([idx], Raise e)
              | Ok v =>
                  if v =? 0 then ([idx], Ok false)
                  else
                    let (tested, r) := contains_loop bm hs m n' (S i) (wrap64 (offset + m)) in
                    (idx :: tested, r)
              end
          end
      end
  end.

(** [__contains__(self, char* key)]: the filter after the call, the bit
    indices tested, and the answer. *)
Definition __contains__ (f : t) (key : list byte) : t * list Z * result bool :=
  match _compute_hashes f key with
  | Raise e => (f, [], Raise e)
  | Ok hs =>
      let f1 := with_hashes f hs in
      let (tested, r) :=
        contains_loop (bitmap f1) (hashes f1) (offset f1) (Z.to_nat (k_num f1)) 0 0 in
      (f1, tested, r)
  end.

Definition contains (f : t) (key : list byte) : result bool :=
  snd (__contains__ f key).

(** *** Insertion *)

(** The loop of [add]: the bitmap after it, the bit indices set, in order,
    and the outcome. *)
Fixpoint add_loop (bm : option Bitmap.t) (hs : list Z) (m : Z)
         (n i : nat) (offset : Z) : option Bitmap.t * list Z * result unit :=
  match n with
  | O => (bm, [], Ok tt)
  | S n' =>
      match hs !! i with
      | None => (bm, [], Raise MemoryFault)
      | Some h =>
          match bit_index offset h m with
          | Raise e => (bm, [], Raise e)
          | Ok idx =>
              match setitem bm idx 1 with
              | Raise e => (bm, [idx], Raise e)
              | Ok bm' =>
                  let '(bm2, set, r) := add_loop bm' hs m n' (S i) (wrap64 (offset + m)) in
                  (bm2, idx :: set, r)
              end
          end
      end
  end.

(** [add] from the declaration of [m] on: set the bits, count, answer. *)
Definition add_bits (f : t) : t * list Z * result bool :=
  let '(bm, set, r) :=
    add_loop (bitmap f) (hashes f) (offset f) (Z.to_nat (k_num f)) 0 0 in
  match r with
  | Raise e => (with_bitmap f bm, set, Raise e)
  | Ok _ => (with_count (with_bitmap f bm) (wrap64 (count f + 1)), set, Ok true)
  end.

(** [add(self, char* key, int check_first=0)]: the filter after the call,
    the bit indices set, and the answer. *)
Definition add (f : t) (key : list byte) (check_first : bool) : t * list Z * result bool :=
  if check_first then
    let '(f1, _, r) := __contains__ f key in
    match r with
    | Raise e => (f1, [], Raise e)
    | Ok true => (f1, [], Ok false)
    | Ok false => add_bits f1
    end
  else
    match _compute_hashes f key with
    | Raise e => (f, [], Raise e)
    | Ok hs => add_bits (with_hashes f hs)
    end.

(** [__len__]. *)
Definition __len__ (f : t) : Z := count f.

(** *** The header *)

(** [flush(self)]. *)
Definition flush (f : t) (w : OS) : t * OS * result unit :=
  let count_str := pack 8 (count f) in
  let size_offset := bitmap_size f / 8 in
  match truth (bitmap f), bitmap f with
  | Raise e, _ => (f, w, Raise e)
  | Ok true, Some b =>
      match Bitmap.__setslice__ b size_offset (size_offset + SIZE_LEN) count_str with
      | Raise e => (f, w, Raise e)
      | Ok b' =>
          match truth (Some b') with
          | Raise e => (with_bitmap f (Some b'), w, Raise e)
          | Ok true =>
              let (w', r) := Bitmap.flush b' w in (with_bitmap f (Some b'), w', r)
          | Ok false => (with_bitmap f (Some b'), w, Ok tt)
          end
      end
  | Ok _, _ => (f, w, Ok tt)
  end.

(** [close(self)]: besides the filter, the [Bitmap] object after the call,
    which the creator of the filter still holds when the filter has dropped
    its reference. *)
Definition close (f : t) (w : OS) : t * option Bitmap.t * OS * result unit :=
  match truth (bitmap f) with
  | Raise e => (f, bitmap f, w, Raise e)
  | Ok false => (f, bitmap f, w, Ok tt)
  | Ok true =>
      let '(f1, w1, r1) := flush f w in
      match r1, bitmap f1 with
      | Raise e, _ => (f1, bitmap f1, w1, Raise e)
      | Ok _, None => (f1, None, w1, Raise TypeError)
      | Ok _, Some b1 =>
          let '(b2, w2, r2) := Bitmap.close b1 true w1 in
          match r2 with
          | Raise e => (with_bitmap f1 (Some b2), Some b2, w2, Raise e)
          | Ok _ => (with_bitmap f1 None, Some b2, w2, Ok tt)
          end
      end
  end.

(** [_read_count(self)]. *)
Definition _read_count (f : t) : result Z :=
  let size_offset := bitmap_size f / 8 in
  count_str ← getslice (bitmap f) size_offset (size_offset + SIZE_LEN);
  unpack 8 count_str.

(** [_read_k_num(self)]. *)
Definition _read_k_num (f : t) : result Z :=
  let size_offset := bitmap_size f / 8 + SIZE_LEN in
  knum_str ← getslice (bitmap f) size_offset (size_offset + K_NUM_LEN);
  unpack 4 knum_str.

(** [_write_k_num(self)]. *)
Definition _write_k_num (f : t) (w : OS) : t * OS * result unit :=
  let size_offset := bitmap_size f / 8 + SIZE_LEN in
  let knum_str := pack 4 (k_num f) in
  match bitmap f with
  | None => (f, w, Raise TypeError)
  | Some b =>
      match Bitmap.__setslice__ b size_offset (size_offset + K_NUM_LEN) knum_str with
      | Raise e => (f, w, Raise e)
      | Ok b' =>
          let (w', r) := Bitmap.flush b' w in (with_bitmap f (Some b'), w', r)
      end
  end.

(** [__cinit__] from the allocation of the scratch buffer on.  The buffer
    has the [k_num * 8] slots that [malloc(k_num*8*sizeof(size_t))] asks
    for; what they hold before the first [_compute_hashes] is never read,
    and is zero here. *)
Definition finish_init (f : t) (w : OS) : t * OS * result unit :=
  let f1 := with_hashes f (repeat 0 (Z.to_nat (k_num f * 8))) in
  if k_num f1 =? 0 then (f1, w, Raise ZeroDivisionError)
  else
    let f2 := with_offset f1 (bitmap_size f1 / k_num f1) in
    match _read_count f2 with
    | Raise e => (f2, w, Raise e)
    | Ok n => (with_count f2 n, w, Ok tt)
    end.

(** [__cinit__(self, bitmap, k)] on the blank object: the object after the
    call (with the bitmap as the call left it), the system, the outcome.
    The arguments are Python objects: either may be [None], and [k] is an
    integer of any size. *)
Definition __cinit__ (bitmap : option Bitmap.t) (k : option Z) (w : OS)
  : t * OS * result unit :=
  match bitmap, k with
  | Some b, Some k =>
      if k <? 1 then (blank, w, Raise ValueError)
      else
        let f := with_bitmap blank (Some b) in
        match n ← Bitmap.__len__ b; Bitmap.as_size_t (n - 8 * extra_buffer) with
        | Raise e => (f, w, Raise e)
        | Ok bitmap_size =>
            let f := with_bitmap_size f bitmap_size in
            if bitmap_size <=? 0 then (f, w, Raise ValueError)
            else
              match _read_k_num f with
              | Raise e => (f, w, Raise e)
              | Ok stored =>
                  let f := with_k_num f stored in
                  if k_num f =? 0 then
                    match Bitmap.as_uint k with
                    | Raise e => (f, w, Raise e)
                    | Ok k =>
                        let '(f, w, r) := _write_k_num (with_k_num f k) w in
                        match r with
                        | Raise e => (f, w, Raise e)
                        | Ok _ => finish_init f w
                        end
                    end
                  else finish_init f w
              end
        end
  | _, _ => (blank, w, Raise ValueError)
  end.

(** The invariant of an open filter: what [__cinit__] establishes and
    every method keeps. *)
Definition ok (f : t) : bool :=
  match bitmap f with
  | None => false
  | Some b =>
      Bitmap.ok b && (extra_buffer <? Bitmap.size b)
      && (bitmap_size f =? 8 * Bitmap.size b - 8 * extra_buffer)
      && (1 <=? k_num f) && (k_num f <? 2 ^ 32)
      && (offset f =? bitmap_size f / k_num f)
      && (0 <=? count f) && (count f <? 2 ^ 64)
      && (Z.of_nat (length (hashes f)) =? k_num f * 8)
      && match _read_k_num f with Ok k => k =? k_num f | Raise _ => false end
  end.

End BloomFilter.

(** ** ScalingBloomFilter: the layer probabilities *)

(** Modelled from the spec: the target probability [p0] of the first layer of
    a ScalingBloomFilter, whose source is not among the files.  The spec
    (section 4.3) picks [p0 = prob * (1 - r)], where [r] is [scale_prob]. *)
Definition first_layer_prob (prob r : R) : R := (prob * (1 - r))%R.

(** Modelled from the spec: the target probability of layer [i],
    [p_i = p0 * r^i] (section 4.3); the source is not among the files. *)
Definition layer_prob (prob r : R) (i : nat) : R :=
  (first_layer_prob prob r * r ^ i)%R.

(** Modelled from the spec: the default of [scale_prob], 0.9 (section 3.3);
    the source is not among the files. *)
Definition default_scale_prob : R := (9 / 10)%R.

(** ** Notions used to state the properties *)

Section Notions.

Import BloomFilter.

(** The bit that [__getitem__] reads at [idx], as a function of the bytes. *)
Definition bit_of (r : list byte) (idx : Z) : bool :=
  match r !! Z.to_nat (idx / 8) with
  | Some c => Z.testbit (byte.unsigned c) (7 - idx mod 8)
  | None => false
  end.

(** The two fields of the trailing header of a bitmap, as the bytes hold them:
    [count] in the eight bytes before the last four, [k] in the last four,
    both little-endian. *)
Definition header_count (b : Bitmap.t) : Z :=
  le_combine (take 8 (drop (Z.to_nat (Bitmap.size b - 12)) (Bitmap.region b))).

Definition header_k (b : Bitmap.t) : Z :=
  le_combine (take 4 (drop (Z.to_nat (Bitmap.size b - 4)) (Bitmap.region b))).

(** The values that [n] rounds from round [i] on write, four per round, as a
    function of the key alone. *)
Fixpoint hash_values (key : list byte) (n i : nat) (salt : Z) : list Z :=
  match n with
  | O => []
  | S n' =>
      let '(djb_hash, dek_hash, fnv_hash, js_hash) := BloomFilter.round key i salt in
      djb_hash :: dek_hash :: fnv_hash :: js_hash ::
        hash_values key n' (S i)
          (Z.lxor (Z.lxor (Z.lxor djb_hash dek_hash) fnv_hash) js_hash)
  end.

(** What the scratch buffer holds in its first [4 * rounds] slots after
    [_compute_hashes] for [key] in a filter of [k] hashes. *)
Definition key_hashes (k : Z) (key : list byte) : list Z :=
  hash_values (BloomFilter.c_str key) (Z.to_nat (BloomFilter.rounds k)) 0 0.

(** The invariant, spelled out. *)
Definition invariant (f : t) (b : Bitmap.t) : Prop :=
  bitmap f = Some b /\ Bitmap.ok b = true /\ 12 < Bitmap.size b /\
  bitmap_size f = 8 * Bitmap.size b - 96 /\
  1 <= k_num f < 2 ^ 32 /\
  offset f = bitmap_size f / k_num f /\
  0 <= count f < 2 ^ 64 /\
  Z.of_nat (length (hashes f)) = k_num f * 8 /\
  header_k b = k_num f.

(** The bit index of hash slot [j]: inside partition [j], at the slot's hash
    reduced modulo the width [m] of a partition. *)
Definition slot_index (m : Z) (hs : list Z) (j : nat) : Z :=
  Z.of_nat j * m + default 0 (hs !! j) mod m.

(** The scratch buffer after [_compute_hashes] for [key]. *)
Definition scratch (f : BloomFilter.t) (key : list byte) : list Z :=
  key_hashes (BloomFilter.k_num f) key
  ++ drop (Z.to_nat (4 * BloomFilter.rounds (BloomFilter.k_num f))) (BloomFilter.hashes f).

(** The bit indices of the first [t] hash slots of [key], and of all [k]. *)
Definition positions_upto (f : BloomFilter.t) (key : list byte) (t : nat) : list Z :=
  map (slot_index (BloomFilter.offset f) (key_hashes (BloomFilter.k_num f) key)) (seq 0 t).

Definition positions (f : BloomFilter.t) (key : list byte) : list Z :=
  positions_upto f key (Z.to_nat (BloomFilter.k_num f)).

(** Two bitmaps with the same bytes below the header. *)
Definition same_bits (b b' : Bitmap.t) : Prop :=
  Bitmap.size b' = Bitmap.size b /\
  forall q, 8 * Z.of_nat q < 8 * Bitmap.size b - 96 ->
            Bitmap.region b' !! q = Bitmap.region b !! q.

(** Two bitmaps with the same header bytes. *)
Definition same_header (b b' : Bitmap.t) : Prop :=
  Bitmap.size b' = Bitmap.size b /\
  forall q, 8 * Bitmap.size b - 96 <= 8 * Z.of_nat q ->
            Bitmap.region b' !! q = Bitmap.region b !! q.

(** What the loop of [add] leaves in the bitmap. *)
Definition bits_added (f : t) (key : list byte) (b b' : Bitmap.t) : Prop :=
  Bitmap.ok b' = true /\
  Bitmap.fileno b' = Bitmap.fileno b /\ Bitmap.fileobj b' = Bitmap.fileobj b /\
  same_header b b' /\
  forall idx, 0 <= idx ->
    bit_of (Bitmap.region b') idx =
      bit_of (Bitmap.region b) idx || existsb (Z.eqb idx) (positions f key).

(** The bitmap after [flush] has written the count into the header. *)
Definition flushed (f : t) (b : Bitmap.t) : Bitmap.t :=
  Bitmap.with_region b
    (list_inserts (Z.to_nat (Bitmap.size b - 12)) (pack 8 (count f)) (Bitmap.region b)).

(** The filter that [__cinit__] builds over [b] when the header of [b]
    holds [kn], and the bitmap after [_write_k_num] has written [k]. *)
Definition opened (b : Bitmap.t) (kn : Z) : t :=
  mk (Some b) kn (8 * Bitmap.size b - 96) (header_count b)
     (repeat 0 (Z.to_nat (kn * 8))) ((8 * Bitmap.size b - 96) / kn).

Definition stamped (b : Bitmap.t) (k : Z) : Bitmap.t :=
  Bitmap.with_region b
    (list_inserts (Z.to_nat (Bitmap.size b - 4)) (pack 4 k) (Bitmap.region b)).

(** The object while [__cinit__] runs, before the scratch buffer exists. *)
Definition half_built (b : Bitmap.t) (kn : Z) : t :=
  mk (Some b) kn (8 * Bitmap.size b - 96) 0 [] 0.

(** *** Objects used as instances *)

(** [Bitmap(n)]: an anonymous map of [n] zero bytes. *)
Definition anonymous (n : nat) : Bitmap.t :=
  Bitmap.mk (-1) false true (repeat Byte.x00 n).

(** A shared map over descriptor [fd] of a file that holds [bytes]. *)
Definition file_backed (fd : Z) (bytes : list byte) : Bitmap.t :=
  Bitmap.mk fd true true bytes.

(** A system in which every call succeeds, and one whose next call fails. *)
Definition quiet : OS := mkOS [] [].
Definition failing : OS := mkOS [-1] [].

(** The key ["test"]. *)
Definition key_test : list byte := [Byte.x74; Byte.x65; Byte.x73; Byte.x74].

(** [BloomFilter(bitmap, k)] in the quiet system. *)
Definition new_filter (b : Bitmap.t) (k : Z) : BloomFilter.t :=
  fst (fst (BloomFilter.__cinit__ (Some b) (Some k) quiet)).



(** The filter after the calls [key in f] for the keys of [keys], in order. *)
Definition after_queries (f : BloomFilter.t) (keys : list (list byte)) : BloomFilter.t :=
  fold_left (fun g key => fst (fst (BloomFilter.__contains__ g key))) keys f.

(** A filter of 7 hashes over a shared map of a 32-byte file, holding the key
    ["test"]. *)
Definition on_file : BloomFilter.t :=
  fst (fst (BloomFilter.add (new_filter (file_backed 3 (repeat Byte.x00 32)) 7)
              key_test false)).

(** [on_file] flushed and then closed while every system call succeeds, and
    the bytes of its bitmap after that. *)
Definition flushed_on_file : BloomFilter.t * OS * result unit :=
  BloomFilter.flush on_file quiet.

Definition closed_on_file : BloomFilter.t * option Bitmap.t * OS * result unit :=
  BloomFilter.close (fst (fst flushed_on_file)) (snd (fst flushed_on_file)).

Definition closed_bytes : list byte :=
  match snd (fst (fst closed_on_file)) with
  | Some b => Bitmap.region b
  | None => []
  end.

End Notions.

(** ** Sequences of calls on a filter *)

(** The filter after the calls [f.add(key, check_first)] for the pairs of
    [adds], in order. *)
Definition after_adds (f : BloomFilter.t) (adds : list (list byte * bool)) : BloomFilter.t :=
  fold_left (fun g a => fst (fst (BloomFilter.add g (fst a) (snd a)))) adds f.


(** A call of one of the methods that keep the filter open, and the filter
    and the system after a sequence of them. *)
Inductive call : Type :=
| CallAdd (key : list byte) (check_first : bool)
| CallContains (key : list byte)
| CallFlush.

Definition step (s : BloomFilter.t * OS) (c : call) : BloomFilter.t * OS :=
  match c with
  | CallAdd key check_first => (fst (fst (BloomFilter.add (fst s) key check_first)), snd s)
  | CallContains key => (fst (fst (BloomFilter.__contains__ (fst s) key)), snd s)
  | CallFlush => fst (BloomFilter.flush (fst s) (snd s))
  end.

Definition run (calls : list call) (s : BloomFilter.t * OS) : BloomFilter.t * OS :=
  fold_left step calls s.

(** The indices below [n] of the bits that read 1 in a bitmap, in increasing
    order; with [n] the [bitmap_size] of a filter, the bits of the filter
    that are set. *)
Definition ones (b : Bitmap.t) (n : Z) : list Z :=
  List.filter
    (fun idx => match Bitmap.__getitem__ b idx with Ok 1 => true | _ => false end)
    (seqZ 0 n).

(** A bitmap after [close]: no mapping, no file object, the same bytes. *)
Definition unmapped (b : Bitmap.t) : Bitmap.t :=
  Bitmap.mk (Bitmap.fileno b) false false (Bitmap.region b).

(** What the invariant fixes of a filter for the rest of its life. *)
Definition same_shape (f f' : BloomFilter.t) (b b' : Bitmap.t) : Prop :=
  BloomFilter.k_num f' = BloomFilter.k_num f /\
  BloomFilter.offset f' = BloomFilter.offset f /\
  BloomFilter.bitmap_size f' = BloomFilter.bitmap_size f /\
  Bitmap.size b' = Bitmap.size b /\ Bitmap.fileno b' = Bitmap.fileno b /\
  Bitmap.fileobj b' = Bitmap.fileobj b /\ header_k b' = header_k b.

(** The system after the calls that end a successful [Bitmap.close]. *)
Definition released (b : Bitmap.t) (w : OS) : OS :=
  if Bitmap.fileobj b then snd (sys Fclose (snd (sys Munmap w))) else snd (sys Munmap w).


(** The four accumulators of a round hold [size_t] values. *)
Definition in_range (st : Z * Z * Z * Z) : Prop :=
  let '(a, b, c, d) := st in
  0 <= a < 2 ^ 64 /\ 0 <= b < 2 ^ 64 /\ 0 <= c < 2 ^ 64 /\ 0 <= d < 2 ^ 64.

(** ** [Bitmap.__cinit__]: the zero-fill of the file

    The loop that extends the file to [length] bytes before it is mapped.
    [file] is what the file holds and [os.path.getsize] its length; the file
    object is opened for appending, so that a write adds its bytes at the
    end.  [fuel] bounds the number of turns of the loop.  The result is the
    file after the loop and the lengths of the writes, oldest first. *)
Fixpoint zero_fill (fuel : nat) (length : Z) (file : list byte)
  : option (list byte * list Z) :=
  match fuel with
  | O => None
  | S fuel' =>
      let size_diff := length - Z.of_nat (List.length file) in
      if 0 <? size_diff then
        let n := Z.min size_diff 100000 in
        match zero_fill fuel' length (file ++ repeat Byte.x00 (Z.to_nat n)) with
        | Some (file', writes) => Some (file', n :: writes)
        | None => None
        end
      else Some (file, [])
  end.

(** * Lemmas *)

(** ** Facts about bits and bytes *)

Section BitFacts.

Lemma land_shiftr_1 (x s : Z) :
  0 <= s -> Z.land (Z.shiftr x s) 1 = Z.b2z (Z.testbit x s).
Proof.
  intros Hs. change 1 with (Z.ones 1).
  rewrite Z.land_ones by lia. rewrite Z.shiftr_div_pow2 by lia.
  rewrite Z.testbit_spec' by lia. reflexivity.
Qed.

Lemma testbit_of_Z (v p : Z) :
  0 <= p < 8 -> Z.testbit (byte.unsigned (byte.of_Z v)) p = Z.testbit v p.
Proof.
  intros Hp. rewrite byte.unsigned_of_Z. unfold byte.wrap.
  apply Z.mod_pow2_bits_low. lia.
Qed.

Lemma testbit_shiftl_1 (s p : Z) :
  0 <= s -> 0 <= p -> Z.testbit (Z.shiftl 1 s) p = (s =? p).
Proof.
  intros Hs Hp. rewrite Z.shiftl_1_l. apply Z.pow2_bits_eqb. lia.
Qed.

Lemma testbit_set (c s p : Z) :
  0 <= s -> 0 <= p ->
  Z.testbit (Z.lor c (Z.shiftl 1 s)) p = Z.testbit c p || (s =? p).
Proof. intros. rewrite Z.lor_spec, testbit_shiftl_1 by lia. reflexivity. Qed.

Lemma testbit_clear (c s p : Z) :
  0 <= s -> 0 <= p ->
  Z.testbit (Z.land c (Z.lnot (Z.shiftl 1 s))) p = Z.testbit c p && negb (s =? p).
Proof.
  intros. rewrite Z.land_spec, Z.lnot_spec, testbit_shiftl_1 by lia. reflexivity.
Qed.

Lemma shiftr_3 (i : Z) : Z.shiftr i 3 = i / 8.
Proof. rewrite Z.shiftr_div_pow2 by lia. reflexivity. Qed.

Lemma bit_position (i j : Z) :
  i / 8 = j / 8 -> 7 - i mod 8 = 7 - j mod 8 -> i = j.
Proof.
  intros Hq Hr. rewrite (Z.div_mod i 8), (Z.div_mod j 8) by lia. lia.
Qed.

End BitFacts.

Section BitmapFacts.

Import Bitmap.

Lemma size_nonneg b : 0 <= size b.
Proof. unfold size. lia. Qed.

Lemma lookup_in_range (r : list byte) (n : Z) :
  0 <= n < Z.of_nat (length r) -> exists c, r !! Z.to_nat n = Some c.
Proof.
  intros H. destruct (r !! Z.to_nat n) eqn:E; [eauto|].
  apply lookup_ge_None in E. lia.
Qed.

Lemma getitem_bit b idx :
  ok b = true -> 0 <= idx < 8 * size b ->
  __getitem__ b idx = Ok (Z.b2z (bit_of (region b) idx)).
Proof.
  unfold ok. intros Hok Hi. apply andb_true_iff in Hok as [Hm Hs].
  apply Z.ltb_lt in Hs.
  unfold __getitem__, as_size_t, load, bit_of.
  replace ((idx <? 0) || (2 ^ 64 <=? idx)) with false by (symmetry; apply orb_false_iff; lia).
  rewrite Hm, shiftr_3.
  replace (0 <=? idx / 8) with true by (symmetry; apply Z.leb_le; apply Z.div_pos; lia).
  cbn [andb].
  destruct (lookup_in_range (region b) (idx / 8)) as [c Hc].
  { unfold size in Hi. split; [apply Z.div_pos; lia | apply Z.div_lt_upper_bound; lia]. }
  rewrite Hc. rewrite land_shiftr_1; [reflexivity|].
  pose proof (Z.mod_pos_bound idx 8). lia.
Qed.

Lemma setitem_region b idx val :
  ok b = true -> 0 <= idx < 8 * size b -> 0 <= val < 2 ^ 32 ->
  exists c,
    region b !! Z.to_nat (idx / 8) = Some c /\
    __setitem__ b idx val =
      Ok (with_region b
            (<[Z.to_nat (idx / 8) :=
                 byte.of_Z (if val =? 0
                            then Z.land (byte.unsigned c) (Z.lnot (Z.shiftl 1 (7 - idx mod 8)))
                            else Z.lor (byte.unsigned c) (Z.shiftl 1 (7 - idx mod 8)))]>
               (region b))).
Proof.
  unfold ok. intros Hok Hi Hv. apply andb_true_iff in Hok as [Hm Hs].
  apply Z.ltb_lt in Hs.
  assert (Hq : 0 <= idx / 8 < size b).
  { split; [apply Z.div_pos; lia | apply Z.div_lt_upper_bound; lia]. }
  destruct (lookup_in_range (region b) (idx / 8)) as [c Hc]; [exact Hq|].
  exists c. split; [exact Hc|].
  unfold __setitem__, as_size_t, as_uint, load, store.
  replace ((idx <? 0) || (2 ^ 64 <=? idx)) with false by (symmetry; apply orb_false_iff; lia).
  replace ((val <? 0) || (2 ^ 32 <=? val)) with false by (symmetry; apply orb_false_iff; lia).
  rewrite Hm, shiftr_3.
  replace (0 <=? idx / 8) with true by (symmetry; apply Z.leb_le; lia).
  cbn [andb]. rewrite Hc.
  replace (idx / 8 <? size b) with true by (symmetry; apply Z.ltb_lt; lia).
  destruct (val =? 0); reflexivity.
Qed.

Lemma bit_of_insert (r : list byte) (idx j : Z) (c : byte) (v : Z) :
  0 <= idx < 8 * Z.of_nat (length r) -> 0 <= j ->
  r !! Z.to_nat (idx / 8) = Some c ->
  (forall p, 0 <= p < 8 -> p <> 7 - idx mod 8 -> Z.testbit v p = Z.testbit (byte.unsigned c) p) ->
  bit_of (<[Z.to_nat (idx / 8) := byte.of_Z v]> r) j =
    if j =? idx then Z.testbit v (7 - idx mod 8) else bit_of r j.
Proof.
  intros Hi Hj Hc Hv. unfold bit_of.
  pose proof (Z.mod_pos_bound idx 8 ltac:(lia)) as Hmi.
  pose proof (Z.mod_pos_bound j 8 ltac:(lia)) as Hmj.
  assert (Hlen : (Z.to_nat (idx / 8) < length r)%nat).
  { apply lookup_lt_Some in Hc. exact Hc. }
  destruct (Z.eqb_spec j idx) as [-> | Hne].
  - rewrite list_lookup_insert_eq by exact Hlen.
    apply testbit_of_Z. lia.
  - destruct (Z.eq_dec (j / 8) (idx / 8)) as [Hq|Hq].
    + rewrite Hq, list_lookup_insert_eq by exact Hlen. rewrite Hc.
      rewrite testbit_of_Z by lia. apply Hv; [lia|].
      intros Hp. apply Hne. apply bit_position; [exact Hq|exact Hp].
    + rewrite list_lookup_insert_ne; [reflexivity|].
      intros Heq. apply Hq. apply Z2Nat.inj in Heq; [lia| |]; apply Z.div_pos; lia.
Qed.

Lemma setitem_bits b idx val :
  ok b = true -> 0 <= idx < 8 * size b -> 0 <= val < 2 ^ 32 ->
  exists b',
    __setitem__ b idx val = Ok b' /\
    fileno b' = fileno b /\ fileobj b' = fileobj b /\ mmap b' = mmap b /\
    size b' = size b /\
    (forall n, n <> Z.to_nat (idx / 8) -> region b' !! n = region b !! n) /\
    (forall j, 0 <= j ->
       bit_of (region b') j = if j =? idx then negb (val =? 0) else bit_of (region b) j).
Proof.
  intros Hok Hi Hv.
  destruct (setitem_region b idx val Hok Hi Hv) as (c & Hc & Hset).
  eexists. split; [exact Hset|].
  pose proof (Z.mod_pos_bound idx 8 ltac:(lia)) as Hmi.
  unfold size. cbn [fileno fileobj mmap region with_region].
  rewrite length_insert.
  repeat split.
  - intros n Hn. apply list_lookup_insert_ne. congruence.
  - intros j Hj. unfold size in Hi.
    rewrite (bit_of_insert _ idx j c); try assumption.
    + destruct (j =? idx); [|reflexivity].
      destruct (val =? 0).
      * rewrite testbit_clear by lia. rewrite Z.eqb_refl. apply andb_false_r.
      * rewrite testbit_set by lia. rewrite Z.eqb_refl. apply orb_true_r.
    + intros p Hp Hne.
      assert (Hf : (7 - idx mod 8 =? p) = false) by (apply Z.eqb_neq; lia).
      destruct (val =? 0).
      * rewrite testbit_clear, Hf by lia. apply andb_true_r.
      * rewrite testbit_set, Hf by lia. apply orb_false_r.
Qed.

End BitmapFacts.

(** ** Facts about the header and the slices *)

Section SliceFacts.

Import Bitmap.

Lemma len_ok b : ok b = true -> __len__ b = Ok (8 * size b).
Proof.
  unfold ok, __len__, wrap64. intros H. apply andb_true_iff in H as [_ H].
  apply Z.ltb_lt in H. pose proof (size_nonneg b).
  rewrite Z.mod_small by lia.
  replace (2 ^ 63 <=? 8 * size b) with false by (symmetry; apply Z.leb_gt; lia).
  reflexivity.
Qed.

Lemma ok_mmap b : ok b = true -> mmap b = true.
Proof. unfold ok. intros H. apply andb_true_iff in H as [H _]. exact H. Qed.

Lemma ok_size b : ok b = true -> 8 * size b < 2 ^ 63.
Proof. unfold ok. intros H. apply andb_true_iff in H as [_ H]. lia. Qed.

Lemma ok_with_region b r :
  ok b = true -> length r = length (region b) -> ok (with_region b r) = true.
Proof. unfold ok, size. cbn. intros H ->. exact H. Qed.

Lemma copy_in_inserts (val : list byte) (i : Z) :
  forall (n x : nat) (b : t),
    mmap b = true -> 0 <= i ->
    (x + n = length val)%nat ->
    i + Z.of_nat (length val) <= size b ->
    copy_in b i val n x =
      Ok (with_region b (list_inserts (Z.to_nat i + x) (drop x val) (region b))).
Proof.
  induction n as [|n IH]; intros x b Hm Hi Hx Hlen.
  - cbn. rewrite drop_ge by lia. destruct b; reflexivity.
  - cbn [copy_in].
    destruct (val !! x) as [c|] eqn:Hc.
    2:{ apply lookup_ge_None in Hc. lia. }
    unfold store. rewrite Hm.
    replace (0 <=? i + Z.of_nat x) with true by (symmetry; apply Z.leb_le; lia).
    replace (i + Z.of_nat x <? size b) with true by (symmetry; apply Z.ltb_lt; lia).
    cbn [andb]. rewrite byte.of_Z_unsigned.
    rewrite IH; cbn [mmap region with_region]; try assumption; try lia.
    2:{ unfold size, with_region. cbn [region]. rewrite length_insert. exact Hlen. }
    f_equal. unfold with_region. cbn [fileno fileobj mmap region]. f_equal.
    rewrite (drop_S val c x Hc). cbn [list_inserts].
    replace (Z.to_nat (i + Z.of_nat x)) with (Z.to_nat i + x)%nat by lia.
    replace (Z.to_nat i + S x)%nat with (S (Z.to_nat i + x)) by lia.
    symmetry. apply list_insert_inserts_lt. lia.
Qed.

Lemma setslice_inserts b i j val :
  mmap b = true -> 0 <= i < j -> j <= size b ->
  Z.of_nat (length val) = j - i ->
  __setslice__ b i j val =
    Ok (with_region b (list_inserts (Z.to_nat i) val (region b))).
Proof.
  intros Hm Hi Hj Hlen. unfold __setslice__.
  replace ((j <=? i) || (i <? 0) || (size b <? j)) with false
    by (symmetry; rewrite !orb_false_iff; repeat split; lia).
  rewrite (copy_in_inserts val i (Z.to_nat (j - i)) 0 b); try assumption; try lia.
  rewrite Nat.add_0_r. reflexivity.
Qed.

Lemma getslice_take_drop b i j :
  mmap b = true -> 0 <= i < j -> j <= size b ->
  __getslice__ b i j = Ok (take (Z.to_nat (j - i)) (drop (Z.to_nat i) (region b))).
Proof.
  intros Hm Hi Hj. unfold __getslice__.
  replace ((j <=? i) || (i <? 0) || (size b <? j)) with false
    by (symmetry; rewrite !orb_false_iff; repeat split; lia).
  rewrite Hm. reflexivity.
Qed.

Lemma slice_of_inserts (r val : list byte) (i : nat) :
  (i + length val <= length r)%nat ->
  take (length val) (drop i (list_inserts i val r)) = val.
Proof.
  intros H. apply list_eq. intros q.
  destruct (Nat.lt_ge_cases q (length val)).
  - rewrite lookup_take_lt, lookup_drop by lia.
    rewrite list_lookup_inserts by lia. f_equal. lia.
  - rewrite lookup_take_ge by lia. symmetry. apply lookup_ge_None. lia.
Qed.

Lemma slice_outside_inserts (r val : list byte) (i p n : nat) :
  (p + n <= i \/ i + length val <= p)%nat ->
  take n (drop p (list_inserts i val r)) = take n (drop p r).
Proof.
  intros H. apply list_eq. intros q.
  destruct (Nat.lt_ge_cases q n).
  - rewrite !lookup_take_lt, !lookup_drop by lia.
    destruct H; [apply list_lookup_inserts_lt | apply list_lookup_inserts_ge]; lia.
  - rewrite !lookup_take_ge by lia. reflexivity.
Qed.

Lemma slice_ext (r r' : list byte) (p n : nat) :
  (forall q, (p <= q < p + n)%nat -> r' !! q = r !! q) ->
  take n (drop p r') = take n (drop p r).
Proof.
  intros H. apply list_eq. intros q.
  destruct (Nat.lt_ge_cases q n).
  - rewrite !lookup_take_lt, !lookup_drop by lia. apply H. lia.
  - rewrite !lookup_take_ge by lia. reflexivity.
Qed.

End SliceFacts.

(** ** Facts about the hashes *)

Section HashFacts.

Import BloomFilter.

Lemma length_hash_values key n : forall i salt,
  length (hash_values key n i salt) = (4 * n)%nat.
Proof.
  induction n as [|n IH]; intros i salt; [reflexivity|].
  cbn [hash_values]. destruct (round key i salt) as [[[a b] c] d].
  cbn [length]. rewrite IH. lia.
Qed.

Lemma rounds_bounds k : 0 <= k -> k <= 4 * rounds k <= k + 3.
Proof.
  intros Hk. unfold rounds.
  assert (Hland : Z.land k 3 = k mod 4) by (apply (Z.land_ones k 2); lia).
  rewrite Hland.
  pose proof (Z.div_mod k 4 ltac:(lia)).
  pose proof (Z.mod_pos_bound k 4 ltac:(lia)).
  destruct (Z.ltb_spec 0 (k mod 4)); lia.
Qed.

Lemma length_key_hashes k key :
  0 <= k -> Z.of_nat (length (key_hashes k key)) = 4 * rounds k.
Proof.
  intros Hk. unfold key_hashes. rewrite length_hash_values.
  pose proof (rounds_bounds k Hk). lia.
Qed.

Lemma poke_ok (hs : list Z) n v :
  (n < length hs)%nat -> poke hs n v = Ok (<[n := v]> hs).
Proof.
  intros H. unfold poke.
  replace (n <? length hs)%nat with true by (symmetry; apply Nat.ltb_lt; exact H).
  reflexivity.
Qed.

Lemma hash_rounds_spec key n : forall i salt (hs : list Z),
  (4 * (i + n) <= length hs)%nat ->
  hash_rounds key n i salt hs =
    Ok (take (4 * i) hs ++ hash_values key n i salt ++ drop (4 * (i + n)) hs).
Proof.
  induction n as [|n IH]; intros i salt hs Hlen.
  - cbn [hash_rounds hash_values app]. rewrite Nat.add_0_r, take_drop. reflexivity.
  - cbn [hash_rounds hash_values].
    destruct (round key i salt) as [[[a b] c] d].
    rewrite poke_ok by lia. cbn [mbind result_bind].
    rewrite poke_ok by (rewrite !length_insert; lia). cbn [mbind result_bind].
    rewrite poke_ok by (rewrite !length_insert; lia). cbn [mbind result_bind].
    rewrite poke_ok by (rewrite !length_insert; lia). cbn [mbind result_bind].
    rewrite IH by (rewrite !length_insert; lia).
    f_equal. apply list_eq. intros q.
    assert (Hl4 : length (take (4 * i) hs) = (4 * i)%nat) by (rewrite length_take; lia).
    destruct (Nat.lt_ge_cases q (4 * i)) as [Hq|Hq].
    + rewrite !lookup_app_l by (rewrite length_take, ?length_insert; lia).
      rewrite !lookup_take_lt by lia.
      rewrite !list_lookup_insert_ne by lia. reflexivity.
    + destruct (Nat.lt_ge_cases q (4 * S i)) as [Hq4|Hq4].
      * rewrite lookup_app_l by (rewrite length_take, ?length_insert; lia).
        rewrite lookup_take_lt by lia.
        rewrite lookup_app_r by lia. rewrite Hl4.
        assert (Hcases : (q = i * 4 \/ q = i * 4 + 1 \/ q = i * 4 + 2 \/ q = i * 4 + 3)%nat) by lia.
        destruct Hcases as [-> | [-> | [-> | ->]]].
        -- rewrite !list_lookup_insert_ne by lia.
           rewrite list_lookup_insert_eq by lia.
           replace (i * 4 - 4 * i)%nat with 0%nat by lia. reflexivity.
        -- rewrite !list_lookup_insert_ne by lia.
           rewrite list_lookup_insert_eq by (rewrite !length_insert; lia).
           replace (i * 4 + 1 - 4 * i)%nat with 1%nat by lia. reflexivity.
        -- rewrite !list_lookup_insert_ne by lia.
           rewrite list_lookup_insert_eq by (rewrite !length_insert; lia).
           replace (i * 4 + 2 - 4 * i)%nat with 2%nat by lia. reflexivity.
        -- rewrite list_lookup_insert_eq by (rewrite !length_insert; lia).
           replace (i * 4 + 3 - 4 * i)%nat with 3%nat by lia. reflexivity.
      * assert (Hl : forall (l : list Z), (4 * S i <= length l)%nat ->
                     length (take (4 * S i) l) = (4 * S i)%nat)
          by (intros l Hl; rewrite length_take; lia).
        rewrite lookup_app_r by (rewrite Hl; rewrite ?length_insert; lia).
        rewrite Hl by (rewrite ?length_insert; lia).
        replace (take (4 * i) hs ++
                 (a :: b :: c :: d :: hash_values key n (S i)
                    (Z.lxor (Z.lxor (Z.lxor a b) c) d)) ++ drop (4 * (i + S n)) hs)
          with ((take (4 * i) hs ++ [a; b; c; d]) ++
                hash_values key n (S i) (Z.lxor (Z.lxor (Z.lxor a b) c) d) ++
                drop (4 * (i + S n)) hs)
          by (rewrite <- app_assoc; reflexivity).
        rewrite (lookup_app_r (take (4 * i) hs ++ [a; b; c; d]))
          by (rewrite length_app, Hl4; cbn [length]; lia).
        rewrite length_app, Hl4. cbn [length].
        replace (q - (4 * i + 4))%nat with (q - 4 * S i)%nat by lia.
        destruct (Nat.lt_ge_cases (q - 4 * S i) (4 * n)) as [Hin|Hin].
        -- rewrite !lookup_app_l by (rewrite length_hash_values; lia). reflexivity.
        -- rewrite !lookup_app_r by (rewrite length_hash_values; lia).
           rewrite !lookup_drop, !length_hash_values.
           rewrite !list_lookup_insert_ne by lia.
           f_equal. lia.
Qed.

Lemma compute_hashes_spec f key :
  1 <= k_num f -> Z.of_nat (length (hashes f)) = k_num f * 8 ->
  _compute_hashes f key =
    Ok (key_hashes (k_num f) key ++ drop (Z.to_nat (4 * rounds (k_num f))) (hashes f)).
Proof.
  intros Hk Hlen. unfold _compute_hashes, key_hashes.
  pose proof (rounds_bounds (k_num f) ltac:(lia)) as Hr.
  rewrite hash_rounds_spec by lia.
  replace (4 * 0)%nat with 0%nat by reflexivity.
  rewrite take_0. cbn [app Nat.add]. do 3 f_equal. lia.
Qed.

(** The buffer after the call no longer depends on what it held in the
    slots that the rounds write. *)
Lemma key_hashes_overwrite k key (old : list Z) :
  0 <= k ->
  drop (Z.to_nat (4 * rounds k)) (key_hashes k key ++ drop (Z.to_nat (4 * rounds k)) old)
  = drop (Z.to_nat (4 * rounds k)) old.
Proof.
  intros Hk. apply drop_app_length'.
  pose proof (length_key_hashes k key Hk). lia.
Qed.

Lemma key_hashes_slot k key (rest : list Z) (j : nat) :
  0 <= k -> Z.of_nat j < k ->
  exists h, (key_hashes k key ++ rest) !! j = Some h /\ key_hashes k key !! j = Some h.
Proof.
  intros Hk Hj.
  pose proof (length_key_hashes k key Hk) as Hl.
  pose proof (rounds_bounds k Hk) as Hr.
  destruct (lookup_lt_is_Some_2 (key_hashes k key) j) as [h Hh]; [lia|].
  exists h. split; [|exact Hh]. apply lookup_app_l_Some. exact Hh.
Qed.

End HashFacts.

(** ** Facts about the invariant *)

Section InvariantFacts.

Import BloomFilter.

Lemma bits_to_bytes (s : Z) : (8 * s - 96) / 8 = s - 12.
Proof. symmetry. apply Z.div_unique_exact; lia. Qed.

Lemma read_k_num_header f b :
  bitmap f = Some b -> Bitmap.ok b = true -> 12 < Bitmap.size b ->
  bitmap_size f = 8 * Bitmap.size b - 96 ->
  _read_k_num f = Ok (header_k b).
Proof.
  intros Hb Hok Hs Hbs. unfold _read_k_num, getslice, SIZE_LEN, K_NUM_LEN.
  rewrite Hb, Hbs.
  rewrite bits_to_bytes.
  rewrite getslice_take_drop by (try apply ok_mmap; try assumption; lia).
  cbn [mbind result_bind]. unfold unpack, header_k.
  replace (Bitmap.size b - 12 + 8 + 4 - (Bitmap.size b - 12 + 8)) with 4 by lia.
  replace (Bitmap.size b - 12 + 8) with (Bitmap.size b - 4) by lia.
  rewrite length_take, length_drop. unfold Bitmap.size in *.
  replace (Z.to_nat 4 `min` (length (Bitmap.region b) - Z.to_nat (Z.of_nat (length (Bitmap.region b)) - 4)))%nat
    with 4%nat by lia.
  reflexivity.
Qed.

Lemma read_count_header f b :
  bitmap f = Some b -> Bitmap.ok b = true -> 12 < Bitmap.size b ->
  bitmap_size f = 8 * Bitmap.size b - 96 ->
  _read_count f = Ok (header_count b).
Proof.
  intros Hb Hok Hs Hbs. unfold _read_count, getslice, SIZE_LEN.
  rewrite Hb, Hbs.
  rewrite bits_to_bytes.
  rewrite getslice_take_drop by (try apply ok_mmap; try assumption; lia).
  cbn [mbind result_bind]. unfold unpack, header_count.
  replace (Bitmap.size b - 12 + 8 - (Bitmap.size b - 12)) with 8 by lia.
  rewrite length_take, length_drop. unfold Bitmap.size in *.
  replace (Z.to_nat 8 `min` (length (Bitmap.region b) - Z.to_nat (Z.of_nat (length (Bitmap.region b)) - 12)))%nat
    with 8%nat by lia.
  reflexivity.
Qed.

Lemma ok_invariant f : ok f = true <-> exists b, invariant f b.
Proof.
  unfold ok, invariant. split.
  - destruct (bitmap f) as [b|] eqn:Hb; [|discriminate].
    intros H. exists b.
    do 9 (apply andb_true_iff in H as [H ?]).
    change extra_buffer with 12 in *.
    assert (Hs : 12 < Bitmap.size b) by lia.
    assert (Hbs : bitmap_size f = 8 * Bitmap.size b - 96) by lia.
    rewrite (read_k_num_header f b Hb H Hs Hbs) in *.
    repeat match goal with
           | |- _ /\ _ => split
           end; try assumption; try reflexivity; try lia.
  - intros (b & Hb & Hok & Hs & Hbs & Hk & Hoff & Hc & Hh & Hhk).
    rewrite Hb. rewrite (read_k_num_header f b Hb Hok Hs Hbs).
    change extra_buffer with 12.
    rewrite Hhk, Z.eqb_refl, andb_true_r, Hok. cbn [andb].
    repeat (apply andb_true_iff; split);
      first [apply Z.ltb_lt; lia | apply Z.leb_le; lia | apply Z.eqb_eq; lia].
Qed.

Lemma partition_fits f b :
  invariant f b -> 1 <= offset f ->
  k_num f * offset f <= bitmap_size f /\ k_num f <= bitmap_size f.
Proof.
  intros (Hb & Hok & Hs & Hbs & Hk & Hoff & _) Hm.
  rewrite Hoff in *.
  pose proof (Z.mul_div_le (bitmap_size f) (k_num f) ltac:(lia)).
  split; [lia|].
  destruct (Z.lt_ge_cases (bitmap_size f) (k_num f)) as [Hlt|]; [|lia].
  rewrite Z.div_small in Hm by lia. lia.
Qed.

End InvariantFacts.

(** ** Facts about the two loops *)

Section LoopFacts.

Import BloomFilter.

Variable hs : list Z.
Variable m : Z.
Hypothesis Hm : 1 <= m.

Lemma slot_index_bounds j :
  Z.of_nat j * m <= slot_index m hs j < (Z.of_nat j + 1) * m.
Proof.
  unfold slot_index. pose proof (Z.mod_pos_bound (default 0 (hs !! j)) m ltac:(lia)). lia.
Qed.

Lemma slot_index_below j n :
  (j < n)%nat -> 0 <= slot_index m hs j < Z.of_nat n * m.
Proof.
  intros Hj. pose proof (slot_index_bounds j). nia.
Qed.

Lemma bit_index_slot i h :
  hs !! i = Some h -> Z.of_nat (S i) * m < 2 ^ 64 ->
  bit_index (Z.of_nat i * m) h m = Ok (slot_index m hs i).
Proof.
  intros Hh Hb. unfold bit_index, slot_index.
  replace (m =? 0) with false by (symmetry; apply Z.eqb_neq; lia).
  rewrite Hh. cbn [default]. unfold wrap64.
  pose proof (Z.mod_pos_bound h m ltac:(lia)).
  rewrite Z.mod_small by nia. reflexivity.
Qed.

Lemma next_offset i :
  Z.of_nat (S i) * m < 2 ^ 64 -> wrap64 (Z.of_nat i * m + m) = Z.of_nat (S i) * m.
Proof. intros H. unfold wrap64. rewrite Z.mod_small by nia. lia. Qed.

Lemma contains_loop_spec b :
  Bitmap.ok b = true ->
  forall n i,
    (i + n <= length hs)%nat ->
    Z.of_nat (i + n) * m <= 8 * Bitmap.size b ->
    exists t, (t <= n)%nat /\
      contains_loop (Some b) hs m n i (Z.of_nat i * m) =
        (map (slot_index m hs) (seq i t),
         Ok (forallb (fun j => bit_of (Bitmap.region b) (slot_index m hs j)) (seq i n))).
Proof.
  intros Hok. pose proof (ok_size b Hok) as Hsz.
  induction n as [|n IH]; intros i Hlen Hfit.
  - exists 0%nat. split; [lia|]. reflexivity.
  - cbn [contains_loop seq forallb].
    destruct (lookup_lt_is_Some_2 hs i) as [h Hh]; [lia|].
    rewrite Hh, (bit_index_slot i h Hh) by nia.
    cbn [getitem].
    pose proof (slot_index_below i (S i) ltac:(lia)) as Hidx.
    rewrite getitem_bit by (try assumption; nia).
    destruct (bit_of (Bitmap.region b) (slot_index m hs i)); cbn [Z.b2z Z.eqb andb].
    + rewrite next_offset by nia.
      destruct (IH (S i)) as (t & Ht & ->); [lia|nia|].
      exists (S t). split; [lia|]. reflexivity.
    + exists 1%nat. split; [lia|]. reflexivity.
Qed.

Lemma add_loop_spec (B : Z) :
  forall n i b,
    Bitmap.ok b = true ->
    (i + n <= length hs)%nat ->
    Z.of_nat (i + n) * m <= B -> B <= 8 * Bitmap.size b ->
    exists b',
      add_loop (Some b) hs m n i (Z.of_nat i * m) =
        (Some b', map (slot_index m hs) (seq i n), Ok tt) /\
      Bitmap.ok b' = true /\
      Bitmap.fileno b' = Bitmap.fileno b /\ Bitmap.fileobj b' = Bitmap.fileobj b /\
      Bitmap.size b' = Bitmap.size b /\
      (forall q, B <= 8 * Z.of_nat q -> Bitmap.region b' !! q = Bitmap.region b !! q) /\
      (forall idx, 0 <= idx ->
         bit_of (Bitmap.region b') idx =
           bit_of (Bitmap.region b) idx
           || existsb (fun j => idx =? slot_index m hs j) (seq i n)).
Proof.
  induction n as [|n IH]; intros i b Hok Hlen Hfit HB.
  - exists b. cbn [add_loop seq map existsb].
    repeat split; try assumption; try reflexivity.
    intros idx _. rewrite orb_false_r. reflexivity.
  - pose proof (ok_size b Hok) as Hsz.
    cbn [add_loop seq map existsb].
    destruct (lookup_lt_is_Some_2 hs i) as [h Hh]; [lia|].
    rewrite Hh, (bit_index_slot i h Hh) by nia.
    pose proof (slot_index_below i (S i) ltac:(lia)) as Hidx.
    destruct (setitem_bits b (slot_index m hs i) 1 Hok) as
      (b1 & Hset & Hfn & Hfo & Hmm & Hsize & Hbytes & Hbits); [nia|lia|].
    cbn [setitem]. rewrite Hset. cbn [mbind result_bind].
    assert (Hok1 : Bitmap.ok b1 = true).
    { unfold Bitmap.ok in *. rewrite Hmm, Hsize. exact Hok. }
    rewrite next_offset by nia.
    destruct (IH (S i) b1 Hok1) as
      (b' & -> & Hok' & Hfn' & Hfo' & Hsize' & Hbytes' & Hbits'); [lia|nia|lia|].
    exists b'. repeat split; try congruence.
    + intros q Hq. rewrite Hbytes' by exact Hq. apply Hbytes.
      intros ->. rewrite Z2Nat.id in Hq by (apply Z.div_pos; lia).
      pose proof (Z.mul_div_le (slot_index m hs i) 8 ltac:(lia)).
      pose proof (Z.div_mod (slot_index m hs i) 8 ltac:(lia)).
      pose proof (Z.mod_pos_bound (slot_index m hs i) 8 ltac:(lia)). nia.
    + intros idx Hidx0. rewrite Hbits', Hbits by exact Hidx0.
      destruct (idx =? slot_index m hs i); cbn [negb Z.eqb orb];
        rewrite ?orb_true_r, ?orb_true_l; reflexivity.
Qed.

End LoopFacts.

(** ** The methods on a filter that satisfies the invariant *)

Section FilterFacts.

Import BloomFilter.

Lemma forallb_map {A B} (p : B -> bool) (g : A -> B) (l : list A) :
  forallb p (map g l) = forallb (fun a => p (g a)) l.
Proof. induction l as [|a l IH]; [reflexivity|]. cbn. rewrite IH. reflexivity. Qed.

Lemma forallb_ext_in {A} (p q : A -> bool) (l : list A) :
  (forall a, In a l -> p a = q a) -> forallb p l = forallb q l.
Proof.
  induction l as [|a l IH]; intros H; [reflexivity|].
  cbn. rewrite (H a) by (left; reflexivity). rewrite IH; [reflexivity|].
  intros x Hx. apply H. right. exact Hx.
Qed.

Lemma existsb_map {A B} (p : B -> bool) (g : A -> B) (l : list A) :
  existsb p (map g l) = existsb (fun a => p (g a)) l.
Proof. induction l as [|a l IH]; [reflexivity|]. cbn. rewrite IH. reflexivity. Qed.

Lemma slot_index_app m (l rest : list Z) j :
  (j < length l)%nat -> slot_index m (l ++ rest) j = slot_index m l j.
Proof. intros H. unfold slot_index. rewrite lookup_app_l by exact H. reflexivity. Qed.

Lemma positions_scratch f key (rest : list Z) t :
  1 <= k_num f -> (t <= Z.to_nat (k_num f))%nat ->
  map (slot_index (offset f) (key_hashes (k_num f) key ++ rest)) (seq 0 t)
  = positions_upto f key t.
Proof.
  intros Hk Ht. unfold positions_upto. apply map_ext_in. intros j Hj.
  apply in_seq in Hj. apply slot_index_app.
  pose proof (length_key_hashes (k_num f) key ltac:(lia)).
  pose proof (rounds_bounds (k_num f) ltac:(lia)). lia.
Qed.

Lemma length_scratch f key :
  1 <= k_num f -> Z.of_nat (length (hashes f)) = k_num f * 8 ->
  Z.of_nat (length (scratch f key)) = k_num f * 8.
Proof.
  intros Hk Hlen. unfold scratch. rewrite length_app, length_drop.
  pose proof (length_key_hashes (k_num f) key ltac:(lia)).
  pose proof (rounds_bounds (k_num f) ltac:(lia)). lia.
Qed.

Lemma scratch_again f key key' :
  1 <= k_num f ->
  scratch (with_hashes f (scratch f key')) key = scratch f key.
Proof.
  intros Hk. unfold scratch at 1 3. cbn [with_hashes k_num hashes]. f_equal.
  unfold scratch. apply key_hashes_overwrite. lia.
Qed.

Lemma invariant_with_hashes f b key :
  invariant f b -> invariant (with_hashes f (scratch f key)) b.
Proof.
  intros (Hb & Hok & Hs & Hbs & Hk & Hoff & Hc & Hh & Hhk).
  unfold invariant. cbn [with_hashes bitmap bitmap_size k_num offset count hashes].
  repeat match goal with |- _ /\ _ => split end; try assumption; try lia.
  apply length_scratch; [lia | exact Hh].
Qed.

Lemma positions_in_range f b key j idx :
  invariant f b -> 1 <= offset f ->
  positions f key !! j = Some idx ->
  Z.of_nat j * offset f <= idx < (Z.of_nat j + 1) * offset f /\
  Z.of_nat j < k_num f /\ 0 <= idx < bitmap_size f /\
  idx = Z.of_nat j * offset f + default 0 (key_hashes (k_num f) key !! j) mod offset f.
Proof.
  intros Hinv Hm Hj. pose proof (partition_fits f b Hinv Hm) as [Hfit _].
  unfold positions, positions_upto in Hj.
  rewrite list_lookup_fmap in Hj.
  destruct (seq 0 (Z.to_nat (k_num f)) !! j) as [j'|] eqn:Hseq; [|discriminate].
  apply lookup_seq in Hseq as [-> Hlt]. cbn in Hj. injection Hj as <-.
  pose proof (slot_index_bounds (key_hashes (k_num f) key) (offset f) Hm j).
  repeat split; try lia; try nia. 
Qed.

Lemma contains_spec f b key :
  invariant f b -> 1 <= offset f ->
  exists t, (t <= Z.to_nat (k_num f))%nat /\
    __contains__ f key =
      (with_hashes f (scratch f key), positions_upto f key t,
       Ok (forallb (bit_of (Bitmap.region b)) (positions f key))).
Proof.
  intros Hinv Hm. pose proof (partition_fits f b Hinv Hm) as [Hfit _].
  destruct Hinv as (Hb & Hok & Hs & Hbs & Hk & Hoff & Hc & Hh & Hhk).
  unfold __contains__. rewrite compute_hashes_spec by (try assumption; lia).
  fold (scratch f key). cbn [with_hashes bitmap hashes offset k_num]. rewrite Hb.
  destruct (contains_loop_spec (scratch f key) (offset f) Hm b Hok
              (Z.to_nat (k_num f)) 0) as (t & Ht & Hloop).
  { pose proof (length_scratch f key ltac:(lia) Hh). lia. }
  { lia. }
  change (Z.of_nat 0 * offset f) with 0 in Hloop. rewrite Hloop.
  exists t. split; [exact Ht|]. unfold scratch.
  rewrite positions_scratch by lia.
  unfold positions. rewrite <- (positions_scratch f key
    (drop (Z.to_nat (4 * rounds (k_num f))) (hashes f)) (Z.to_nat (k_num f))) by lia.
  rewrite forallb_map. reflexivity.
Qed.

Lemma contains_offset_zero f b key :
  invariant f b -> offset f = 0 ->
  __contains__ f key = (with_hashes f (scratch f key), [], Raise ZeroDivisionError).
Proof.
  intros (Hb & Hok & Hs & Hbs & Hk & Hoff & Hc & Hh & Hhk) Hm.
  unfold __contains__. rewrite compute_hashes_spec by (try assumption; lia).
  fold (scratch f key). cbn [with_hashes bitmap hashes offset k_num].
  destruct (Z.to_nat (k_num f)) as [|n] eqn:Hn; [lia|].
  cbn [contains_loop].
  destruct (lookup_lt_is_Some_2 (scratch f key) 0) as [h Hh0].
  { pose proof (length_scratch f key ltac:(lia) Hh). lia. }
  rewrite Hh0. unfold bit_index. rewrite Hm. reflexivity.
Qed.

Lemma add_bits_spec f b key :
  invariant f b -> 1 <= offset f ->
  exists b',
    add_bits (with_hashes f (scratch f key)) =
      (mk (Some b') (k_num f) (bitmap_size f) (wrap64 (count f + 1))
          (scratch f key) (offset f),
       positions f key, Ok true) /\
    bits_added f key b b'.
Proof.
  intros Hinv Hm. pose proof (partition_fits f b Hinv Hm) as [Hfit _].
  destruct Hinv as (Hb & Hok & Hs & Hbs & Hk & Hoff & Hc & Hh & Hhk).
  unfold add_bits. cbn [with_hashes bitmap hashes offset k_num count]. rewrite Hb.
  destruct (add_loop_spec (scratch f key) (offset f) Hm (bitmap_size f)
              (Z.to_nat (k_num f)) 0 b Hok) as
    (b' & Hloop & Hok' & Hfn & Hfo & Hsize & Hbytes & Hbits).
  { pose proof (length_scratch f key ltac:(lia) Hh). lia. }
  { lia. }
  { lia. }
  change (Z.of_nat 0 * offset f) with 0 in Hloop. rewrite Hloop.
  exists b'. split.
  - unfold with_count, with_bitmap. cbn [bitmap hashes offset k_num count bitmap_size].
    unfold scratch. rewrite positions_scratch by lia. reflexivity.
  - unfold bits_added, same_header. repeat split; try assumption.
    + intros q Hq. apply Hbytes. lia.
    + intros idx Hidx. rewrite Hbits by exact Hidx. f_equal.
      rewrite <- (existsb_map (Z.eqb idx) (slot_index (offset f) (scratch f key))).
      unfold scratch. rewrite positions_scratch by lia. reflexivity.
Qed.

Lemma add_offset_zero f b key check_first :
  invariant f b -> offset f = 0 ->
  add f key check_first = (with_hashes f (scratch f key), [], Raise ZeroDivisionError).
Proof.
  intros Hinv Hm. unfold add. destruct check_first.
  - rewrite (contains_offset_zero f b key Hinv Hm). reflexivity.
  - destruct Hinv as (Hb & Hok & Hs & Hbs & Hk & Hoff & Hc & Hh & Hhk).
    rewrite compute_hashes_spec by (try assumption; lia).
    fold (scratch f key). unfold add_bits.
    cbn [with_hashes bitmap hashes offset k_num].
    destruct (Z.to_nat (k_num f)) as [|n] eqn:Hn; [lia|].
    cbn [add_loop].
    destruct (lookup_lt_is_Some_2 (scratch f key) 0) as [h Hh0].
    { pose proof (length_scratch f key ltac:(lia) Hh). lia. }
    rewrite Hh0. unfold bit_index. rewrite Hm. cbn [Z.eqb].
    unfold with_bitmap, with_hashes. cbn [bitmap k_num bitmap_size count hashes offset].
    reflexivity.
Qed.

Lemma add_spec f b key check_first :
  invariant f b -> 1 <= offset f ->
  if check_first && forallb (bit_of (Bitmap.region b)) (positions f key)
  then add f key check_first = (with_hashes f (scratch f key), [], Ok false)
  else exists b',
      add f key check_first =
        (mk (Some b') (k_num f) (bitmap_size f) (wrap64 (count f + 1))
            (scratch f key) (offset f),
         positions f key, Ok true) /\
      bits_added f key b b'.
Proof.
  intros Hinv Hm. unfold add. destruct check_first; cbn [andb].
  - destruct (contains_spec f b key Hinv Hm) as (t & _ & ->).
    destruct (forallb (bit_of (Bitmap.region b)) (positions f key)); [reflexivity|].
    apply add_bits_spec; assumption.
  - destruct Hinv as (Hb & Hok & Hs & Hbs & Hk & Hoff & Hc & Hh & Hhk).
    rewrite compute_hashes_spec by (try assumption; lia).
    fold (scratch f key). apply add_bits_spec; [|exact Hm].
    unfold invariant. repeat match goal with |- _ /\ _ => split end; assumption || lia.
Qed.

Lemma bit_of_same_bits b b' idx :
  same_bits b b' -> 0 <= idx < 8 * Bitmap.size b - 96 ->
  bit_of (Bitmap.region b') idx = bit_of (Bitmap.region b) idx.
Proof.
  intros [_ H] Hidx. unfold bit_of. rewrite H; [reflexivity|].
  rewrite Z2Nat.id by (apply Z.div_pos; lia).
  pose proof (Z.mul_div_le idx 8 ltac:(lia)). lia.
Qed.

(** The answer of [__contains__] depends on the bits below the header, on
    [k] and on nothing else: not on the header, not on the scratch buffer. *)
Lemma contains_same_bits f b f' b' key :
  invariant f b -> invariant f' b' -> k_num f' = k_num f -> same_bits b b' ->
  contains f' key = contains f key.
Proof.
  intros Hinv Hinv' Hk Hsame.
  assert (Hbs : bitmap_size f' = bitmap_size f).
  { destruct Hinv as (_ & _ & _ & -> & _), Hinv' as (_ & _ & _ & -> & _).
    destruct Hsame as [-> _]. reflexivity. }
  assert (Hoff : offset f' = offset f).
  { destruct Hinv as (_ & _ & _ & _ & _ & -> & _), Hinv' as (_ & _ & _ & _ & _ & -> & _).
    rewrite Hbs, Hk. reflexivity. }
  assert (Hpos : positions f' key = positions f key).
  { unfold positions, positions_upto. rewrite Hoff, Hk. reflexivity. }
  assert (Hmnn : 0 <= offset f).
  { destruct Hinv as (_ & _ & Hs & Hb & Hkk & -> & _). apply Z.div_pos; lia. }
  unfold contains.
  destruct (Z.eq_dec (offset f) 0) as [Hz|Hnz].
  - rewrite (contains_offset_zero f b key Hinv Hz).
    rewrite (contains_offset_zero f' b' key Hinv') by congruence. reflexivity.
  - destruct (contains_spec f b key Hinv ltac:(lia)) as (t & _ & ->).
    destruct (contains_spec f' b' key Hinv' ltac:(lia)) as (t' & _ & ->).
    cbn [snd]. rewrite Hpos. f_equal.
    apply forallb_ext_in. intros idx Hin.
    apply list_elem_of_In, list_elem_of_lookup in Hin as [j Hj].
    destruct (positions_in_range f b key j idx Hinv ltac:(lia) Hj) as (_ & _ & Hr & _).
    apply bit_of_same_bits; [exact Hsame|].
    destruct Hinv as (_ & _ & _ & Hb & _). lia.
Qed.

Lemma contains_with_hashes f b key (hs : list Z) :
  invariant f b -> Z.of_nat (length hs) = k_num f * 8 ->
  contains (with_hashes f hs) key = contains f key.
Proof.
  intros Hinv Hlen. apply (contains_same_bits f b _ b); try assumption.
  - destruct Hinv as (Hb & Hok & Hs & Hbs & Hk & Hoff & Hc & Hh & Hhk).
    unfold invariant. cbn [with_hashes bitmap bitmap_size k_num offset count hashes].
    repeat match goal with |- _ /\ _ => split end; assumption || lia.
  - reflexivity.
  - split; [reflexivity|]. intros; reflexivity.
Qed.

Lemma truth_ok b :
  Bitmap.ok b = true -> 0 < Bitmap.size b -> truth (Some b) = Ok true.
Proof.
  intros Hok Hs. unfold truth. rewrite (len_ok b Hok). cbn [mbind result_bind].
  replace (8 * Bitmap.size b =? 0) with false by (symmetry; apply Z.eqb_neq; lia).
  reflexivity.
Qed.

Lemma bitmap_flush_outcome b w :
  snd (Bitmap.flush b w) = Ok tt \/ snd (Bitmap.flush b w) = Raise OSError.
Proof.
  unfold Bitmap.flush. destruct (Bitmap.mmap b); [|left; reflexivity].
  destruct (c_flush (Bitmap.fileno b) w) as [res w1].
  destruct (res =? -1); [right|left]; reflexivity.
Qed.

Lemma flushed_facts f b :
  invariant f b ->
  invariant (with_bitmap f (Some (flushed f b))) (flushed f b) /\
  same_bits b (flushed f b) /\
  header_count (flushed f b) = count f /\
  header_k (flushed f b) = header_k b /\
  Bitmap.fileno (flushed f b) = Bitmap.fileno b /\
  Bitmap.fileobj (flushed f b) = Bitmap.fileobj b /\
  Bitmap.mmap (flushed f b) = Bitmap.mmap b.
Proof.
  intros (Hb & Hok & Hs & Hbs & Hk & Hoff & Hc & Hh & Hhk).
  assert (Hsize : Bitmap.size (flushed f b) = Bitmap.size b).
  { unfold flushed, Bitmap.size, Bitmap.with_region. cbn [Bitmap.region].
    rewrite length_inserts. reflexivity. }
  assert (Hok' : Bitmap.ok (flushed f b) = true).
  { apply ok_with_region; [exact Hok|]. apply length_inserts. }
  assert (Hhk' : header_k (flushed f b) = header_k b).
  { unfold header_k. rewrite Hsize. unfold flushed, Bitmap.with_region.
    cbn [Bitmap.region]. f_equal. apply slice_outside_inserts.
    right. unfold pack. rewrite length_le_split. lia. }
  repeat match goal with |- _ /\ _ => split end; try reflexivity; try assumption.
  - unfold invariant. cbn [with_bitmap bitmap bitmap_size k_num offset count hashes].
    rewrite Hsize, Hhk'.
    repeat match goal with |- _ /\ _ => split end; reflexivity || assumption || lia.
  - split; [exact Hsize|].
    intros q Hq. unfold flushed, Bitmap.with_region. cbn [Bitmap.region].
    apply list_lookup_inserts_lt. lia.
  - unfold header_count. rewrite Hsize. unfold flushed, Bitmap.with_region.
    cbn [Bitmap.region].
    replace 8%nat with (length (pack 8 (count f))) at 1
      by (unfold pack; apply length_le_split).
    rewrite slice_of_inserts.
    + unfold pack. rewrite le_combine_split. apply Z.mod_small.
      change (2 ^ (Z.of_nat 8 * 8)) with (2 ^ 64). exact Hc.
    + unfold pack. rewrite length_le_split. unfold Bitmap.size in *. lia.
Qed.

Lemma flush_spec f b w :
  invariant f b ->
  flush f w =
    (with_bitmap f (Some (flushed f b)),
     fst (Bitmap.flush (flushed f b) w), snd (Bitmap.flush (flushed f b) w)).
Proof.
  intros Hinv. destruct (flushed_facts f b Hinv) as ((_ & Hok' & Hs' & _) & _).
  destruct Hinv as (Hb & Hok & Hs & Hbs & Hk & Hoff & Hc & Hh & Hhk).
  unfold flush. rewrite Hb, (truth_ok b Hok) by lia.
  rewrite Hbs, bits_to_bytes. unfold SIZE_LEN.
  rewrite setslice_inserts;
    [| apply ok_mmap; exact Hok | lia | lia | unfold pack; rewrite length_le_split; lia].
  fold (flushed f b). rewrite (truth_ok _ Hok') by lia.
  destruct (Bitmap.flush (flushed f b) w). reflexivity.
Qed.

(** *** Construction *)

Lemma header_k_bound b : 12 < Bitmap.size b -> 0 <= header_k b < 2 ^ 32.
Proof.
  intros Hs. unfold header_k.
  pose proof (le_combine_bound
                (take 4 (drop (Z.to_nat (Bitmap.size b - 4)) (Bitmap.region b)))) as H.
  rewrite length_take, length_drop in H. unfold Bitmap.size in *.
  replace (4 `min` (length (Bitmap.region b)
                    - Z.to_nat (Z.of_nat (length (Bitmap.region b)) - 4)))%nat
    with 4%nat in H by lia.
  exact H.
Qed.

Lemma header_count_bound b : 12 < Bitmap.size b -> 0 <= header_count b < 2 ^ 64.
Proof.
  intros Hs. unfold header_count.
  pose proof (le_combine_bound
                (take 8 (drop (Z.to_nat (Bitmap.size b - 12)) (Bitmap.region b)))) as H.
  rewrite length_take, length_drop in H. unfold Bitmap.size in *.
  replace (8 `min` (length (Bitmap.region b)
                    - Z.to_nat (Z.of_nat (length (Bitmap.region b)) - 12)))%nat
    with 8%nat in H by lia.
  exact H.
Qed.

Lemma opened_invariant b :
  Bitmap.ok b = true -> 12 < Bitmap.size b -> header_k b <> 0 ->
  invariant (opened b (header_k b)) b.
Proof.
  intros Hok Hs Hk. pose proof (header_k_bound b Hs). pose proof (header_count_bound b Hs).
  unfold invariant, opened. cbn [bitmap bitmap_size k_num offset count hashes].
  rewrite repeat_length.
  repeat match goal with |- _ /\ _ => split end; reflexivity || assumption || lia.
Qed.

Lemma stamped_facts b k :
  Bitmap.ok b = true -> 12 < Bitmap.size b -> 0 <= k < 2 ^ 32 ->
  Bitmap.ok (stamped b k) = true /\
  Bitmap.size (stamped b k) = Bitmap.size b /\
  header_k (stamped b k) = k /\
  header_count (stamped b k) = header_count b /\
  same_bits b (stamped b k).
Proof.
  intros Hok Hs Hk.
  assert (Hsize : Bitmap.size (stamped b k) = Bitmap.size b).
  { unfold stamped, Bitmap.size, Bitmap.with_region. cbn [Bitmap.region].
    rewrite length_inserts. reflexivity. }
  repeat match goal with |- _ /\ _ => split end.
  - apply ok_with_region; [exact Hok|]. apply length_inserts.
  - exact Hsize.
  - unfold header_k. rewrite Hsize. unfold stamped, Bitmap.with_region.
    cbn [Bitmap.region].
    replace 4%nat with (length (pack 4 k)) at 1 by (unfold pack; apply length_le_split).
    rewrite slice_of_inserts.
    + unfold pack. rewrite le_combine_split. apply Z.mod_small.
      change (2 ^ (Z.of_nat 4 * 8)) with (2 ^ 32). exact Hk.
    + unfold pack. rewrite length_le_split. unfold Bitmap.size in *. lia.
  - unfold header_count. rewrite Hsize. unfold stamped, Bitmap.with_region.
    cbn [Bitmap.region]. f_equal. apply slice_outside_inserts. left. lia.
  - split; [exact Hsize|].
    intros q Hq. unfold stamped, Bitmap.with_region. cbn [Bitmap.region].
    apply list_lookup_inserts_lt. lia.
Qed.

Lemma finish_init_spec b kn w :
  Bitmap.ok b = true -> 12 < Bitmap.size b -> kn <> 0 ->
  finish_init (mk (Some b) kn (8 * Bitmap.size b - 96) 0 [] 0) w
  = (opened b kn, w, Ok tt).
Proof.
  intros Hok Hs Hkn. unfold finish_init.
  cbn [with_hashes with_offset bitmap k_num bitmap_size count hashes offset].
  replace (kn =? 0) with false by (symmetry; apply Z.eqb_neq; exact Hkn).
  cbn [with_hashes with_offset bitmap k_num bitmap_size count hashes offset].
  erewrite read_count_header; [reflexivity | reflexivity | exact Hok | exact Hs | reflexivity].
Qed.

Lemma cinit_prefix b k w :
  Bitmap.ok b = true -> 12 < Bitmap.size b -> 1 <= k ->
  __cinit__ (Some b) (Some k) w =
    if header_k b =? 0 then
      match Bitmap.as_uint k with
      | Raise e => (half_built b 0, w, Raise e)
      | Ok k =>
          let '(f, w, r) := _write_k_num (half_built b k) w in
          match r with
          | Raise e => (f, w, Raise e)
          | Ok _ => finish_init f w
          end
      end
    else (opened b (header_k b), w, Ok tt).
Proof.
  intros Hok Hs Hk. unfold __cinit__.
  replace (k <? 1) with false by (symmetry; apply Z.ltb_ge; lia).
  rewrite (len_ok b Hok). cbn [mbind result_bind]. unfold Bitmap.as_size_t at 1.
  change (8 * extra_buffer) with 96.
  pose proof (ok_size b Hok) as Hsz.
  replace ((8 * Bitmap.size b - 96 <? 0) || (2 ^ 64 <=? 8 * Bitmap.size b - 96))
    with false by (symmetry; apply orb_false_iff; lia).
  replace (8 * Bitmap.size b - 96 <=? 0) with false by (symmetry; apply Z.leb_gt; lia).
  unfold with_bitmap_size, with_bitmap, with_k_num, blank.
  cbn [bitmap k_num bitmap_size count hashes offset].
  erewrite read_k_num_header; [| reflexivity | exact Hok | exact Hs | reflexivity].
  cbn [bitmap k_num bitmap_size count hashes offset].
  destruct (header_k b =? 0) eqn:Hz.
  - apply Z.eqb_eq in Hz. rewrite Hz. reflexivity.
  - apply finish_init_spec; try assumption. apply Z.eqb_neq. exact Hz.
Qed.

Lemma cinit_existing b k w :
  Bitmap.ok b = true -> 12 < Bitmap.size b -> 1 <= k -> header_k b <> 0 ->
  __cinit__ (Some b) (Some k) w = (opened b (header_k b), w, Ok tt).
Proof.
  intros Hok Hs Hk Hz. rewrite cinit_prefix by assumption.
  apply Z.eqb_neq in Hz. rewrite Hz. reflexivity.
Qed.

Lemma cinit_fresh b k w :
  Bitmap.ok b = true -> 12 < Bitmap.size b -> 1 <= k < 2 ^ 32 -> header_k b = 0 ->
  __cinit__ (Some b) (Some k) w =
    (match snd (Bitmap.flush (stamped b k) w) with
     | Ok _ => opened (stamped b k) k
     | Raise _ => half_built (stamped b k) k
     end,
     fst (Bitmap.flush (stamped b k) w), snd (Bitmap.flush (stamped b k) w)).
Proof.
  intros Hok Hs Hk Hz. rewrite cinit_prefix by (assumption || lia).
  rewrite Hz. cbn [Z.eqb]. unfold Bitmap.as_uint.
  replace ((k <? 0) || (2 ^ 32 <=? k)) with false by (symmetry; apply orb_false_iff; lia).
  destruct (stamped_facts b k Hok Hs ltac:(lia)) as (Hok' & Hsize & _).
  unfold _write_k_num, half_built. cbn [bitmap k_num bitmap_size].
  rewrite bits_to_bytes. unfold SIZE_LEN, K_NUM_LEN.
  rewrite setslice_inserts;
    [| apply ok_mmap; exact Hok | lia | lia | unfold pack; rewrite length_le_split; lia].
  replace (Bitmap.size b - 12 + 8) with (Bitmap.size b - 4) by lia.
  fold (stamped b k).
  destruct (Bitmap.flush (stamped b k) w) as [w' r]. cbn [fst snd].
  unfold with_bitmap. cbn [bitmap k_num bitmap_size count hashes offset].
  destruct r as [[]|e]; [|rewrite Hsize; reflexivity].
  rewrite <- Hsize. apply finish_init_spec; [exact Hok'|lia|lia].
Qed.

(** *** After [add] *)

Lemma same_header_fields b b' :
  12 < Bitmap.size b -> same_header b b' ->
  header_k b' = header_k b /\ header_count b' = header_count b.
Proof.
  intros Hs [Hsize Hbytes]. unfold header_k, header_count. rewrite Hsize.
  split; f_equal; apply slice_ext; intros q Hq; apply Hbytes; lia.
Qed.

Lemma invariant_after_add f b b' key :
  invariant f b -> bits_added f key b b' ->
  invariant (mk (Some b') (k_num f) (bitmap_size f) (wrap64 (count f + 1))
               (scratch f key) (offset f)) b'.
Proof.
  intros (Hb & Hok & Hs & Hbs & Hk & Hoff & Hc & Hh & Hhk) (Hok' & _ & _ & Hhead & _).
  destruct (same_header_fields b b' Hs Hhead) as [Hhk' _].
  destruct Hhead as [Hsize _].
  unfold invariant. cbn [bitmap bitmap_size k_num offset count hashes].
  rewrite Hsize, Hhk'.
  pose proof (Z.mod_pos_bound (count f + 1) (2 ^ 64) ltac:(lia)).
  repeat match goal with |- _ /\ _ => split end;
    try reflexivity; try assumption; try (unfold wrap64; lia).
  apply length_scratch; [lia | exact Hh].
Qed.

Lemma positions_upto_lookup f key t j idx :
  (t <= Z.to_nat (k_num f))%nat ->
  positions_upto f key t !! j = Some idx -> positions f key !! j = Some idx.
Proof.
  intros Ht. unfold positions, positions_upto. rewrite !list_lookup_fmap.
  destruct (seq 0 t !! j) as [j'|] eqn:Hseq; [|discriminate].
  apply lookup_seq in Hseq as [-> Hlt].
  rewrite lookup_seq_lt by lia. intros H. exact H.
Qed.

Lemma length_positions f key :
  0 <= k_num f -> Z.of_nat (length (positions f key)) = k_num f.
Proof.
  intros Hk. unfold positions, positions_upto. rewrite length_map, length_seq. lia.
Qed.




(** *** [close], and bitmaps over the same bytes *)

Lemma same_bits_trans b1 b2 b3 :
  same_bits b1 b2 -> same_bits b2 b3 -> same_bits b1 b3.
Proof.
  intros [Hs1 H1] [Hs2 H2]. split; [congruence|].
  intros q Hq. rewrite H2 by (rewrite Hs1; exact Hq). apply H1. exact Hq.
Qed.

Lemma same_region b b' :
  Bitmap.region b' = Bitmap.region b ->
  Bitmap.size b' = Bitmap.size b /\ header_k b' = header_k b /\
  header_count b' = header_count b /\ same_bits b b'.
Proof.
  intros H. unfold header_k, header_count, same_bits, Bitmap.size. rewrite H.
  repeat split; reflexivity.
Qed.

Lemma close_spec f b w f2 released w2 :
  invariant f b -> close f w = (f2, released, w2, Ok tt) ->
  bitmap f2 = None /\
  exists b2, released = Some b2 /\ Bitmap.mmap b2 = false /\
             Bitmap.region b2 = Bitmap.region (flushed f b).
Proof.
  intros Hinv Hclose.
  destruct (flushed_facts f b Hinv) as (_ & _ & _ & _ & _ & _ & Hmm).
  pose proof Hinv as (Hb & Hok & Hs & _).
  unfold close in Hclose. rewrite Hb, (truth_ok b Hok) in Hclose by lia.
  rewrite (flush_spec f b w Hinv) in Hclose.
  destruct (snd (Bitmap.flush (flushed f b) w)) as [[]|e]; [|discriminate].
  cbn [with_bitmap bitmap] in Hclose.
  unfold Bitmap.close in Hclose.
  destruct (Bitmap.flush (flushed f b) (fst (Bitmap.flush (flushed f b) w))) as [w3 [[]|e]];
    [|discriminate].
  rewrite Hmm, (ok_mmap b Hok) in Hclose. cbn [Bitmap.fileobj Bitmap.mmap Bitmap.region Bitmap.fileno] in Hclose.
  destruct (Bitmap.fileobj (flushed f b)); injection Hclose as <- <- <-;
    (split; [reflexivity|]); eexists; (split; [reflexivity|]); split; reflexivity.
Qed.

(** *** The system calls of a flush *)


Lemma flush_succeeds b w :
  Bitmap.fileno b = -1 \/ pending w = [] -> snd (Bitmap.flush b w) = Ok tt.
Proof.
  intros H. unfold Bitmap.flush, c_flush. destruct (Bitmap.mmap b); [|reflexivity].
  destruct H as [-> | Hp]; [reflexivity|].
  destruct (Bitmap.fileno b =? -1); [reflexivity|].
  unfold sys. rewrite Hp. reflexivity.
Qed.

End FilterFacts.

(** * The properties of the specification *)

(** ** Bitmap *)

(** C5. In an open bitmap, for a bit index [i] below [8 * size], [get] and
    [set] address byte [i >> 3] at bit position [7 - i mod 8] of that byte:
    [get] returns that bit of the byte, [set] replaces that byte by one that
    differs from it at most in that bit, which becomes 1 for a nonzero value
    and 0 for zero.  After the [set], [get] returns the new bit at [i] and
    what it returned before at every other index; in particular, after
    setting bit [i] in an all-zero bitmap, [get] returns 1 at [i] and 0
    elsewhere. *)
Theorem bitmap_bit_layout (b : Bitmap.t) (i val : Z) :
  Bitmap.ok b = true -> 0 <= i < 8 * Bitmap.size b -> 0 <= val < 2 ^ 32 ->
  exists (c c' : byte) (b' : Bitmap.t),
    Bitmap.region b !! Z.to_nat (Z.shiftr i 3) = Some c /\
    Bitmap.__getitem__ b i = Ok (Z.b2z (Z.testbit (byte.unsigned c) (7 - i mod 8))) /\
    Bitmap.__setitem__ b i val = Ok b' /\
    Bitmap.region b' = <[Z.to_nat (Z.shiftr i 3) := c']> (Bitmap.region b) /\
    (forall p, 0 <= p < 8 ->
       Z.testbit (byte.unsigned c') p =
         if p =? 7 - i mod 8 then negb (val =? 0) else Z.testbit (byte.unsigned c) p) /\
    (forall j, 0 <= j < 8 * Bitmap.size b ->
       Bitmap.__getitem__ b' j =
         if j =? i then Ok (if val =? 0 then 0 else 1) else Bitmap.__getitem__ b j) /\
    ((forall c0, c0 ∈ Bitmap.region b -> c0 = Byte.x00) -> val <> 0 ->
     forall j, 0 <= j < 8 * Bitmap.size b ->
       Bitmap.__getitem__ b' j = Ok (if j =? i then 1 else 0)).
Proof.
  intros Hok Hi Hv.
  destruct (setitem_region b i val Hok Hi Hv) as (c & Hc & Hset).
  destruct (setitem_bits b i val Hok Hi Hv) as (b' & Hset' & _ & _ & Hmm & Hsize & _ & Hbits).
  pose proof (Z.mod_pos_bound i 8 ltac:(lia)) as Hmi.
  assert (Hok' : Bitmap.ok b' = true).
  { unfold Bitmap.ok in *. rewrite Hmm, Hsize. exact Hok. }
  assert (Hget : forall j, 0 <= j < 8 * Bitmap.size b ->
            Bitmap.__getitem__ b' j =
              if j =? i then Ok (if val =? 0 then 0 else 1) else Bitmap.__getitem__ b j).
  { intros j Hj. rewrite (getitem_bit b' j Hok') by lia.
    rewrite Hbits by lia. destruct (j =? i).
    - destruct (val =? 0); reflexivity.
    - rewrite (getitem_bit b j Hok) by lia. reflexivity. }
  exists c. eexists. exists b'. rewrite shiftr_3.
  split; [exact Hc|]. split.
  { rewrite (getitem_bit b i Hok Hi). unfold bit_of. rewrite Hc. reflexivity. }
  split; [exact Hset'|]. split.
  { rewrite Hset in Hset'. injection Hset' as <-. reflexivity. }
  split.
  { intros p Hp. rewrite testbit_of_Z by exact Hp.
    destruct (val =? 0).
    - rewrite testbit_clear by lia. rewrite (Z.eqb_sym p).
      destruct (7 - i mod 8 =? p); [apply andb_false_r | apply andb_true_r].
    - rewrite testbit_set by lia. rewrite (Z.eqb_sym p).
      destruct (7 - i mod 8 =? p); [apply orb_true_r | apply orb_false_r]. }
  split; [exact Hget|].
  intros Hzero Hnz j Hj. rewrite (Hget j Hj).
  replace (val =? 0) with false by (symmetry; apply Z.eqb_neq; exact Hnz).
  destruct (j =? i); [reflexivity|].
  rewrite (getitem_bit b j Hok Hj). unfold bit_of.
  destruct (Bitmap.region b !! Z.to_nat (j / 8)) as [c0|] eqn:Hc0; [|reflexivity].
  rewrite (Hzero c0) by (apply list_elem_of_lookup; eauto).
  change (byte.unsigned Byte.x00) with 0. rewrite Z.testbit_0_l. reflexivity.
Qed.

Lemma bitmap_bit_layout_witness :
  exists b',
    Bitmap.__setitem__ (anonymous 32) 5 1 = Ok b' /\
    Bitmap.__getitem__ b' 5 = Ok 1 /\ Bitmap.__getitem__ b' 4 = Ok 0.
Proof.
  destruct (bitmap_bit_layout (anonymous 32) 5 1)
    as (c & c' & b' & _ & _ & Hset & _ & _ & Hget & _).
  - reflexivity.
  - change (Bitmap.size (anonymous 32)) with 32. lia.
  - lia.
  - exists b'. split; [exact Hset|].
    split; [apply (Hget 5) | apply (Hget 4)];
      change (Bitmap.size (anonymous 32)) with 32; lia.
Defined.

(** ** BloomFilter: insertion and membership *)



(** C4. In a filter with [offset = bitmap_size / k >= 1], the bit index that
    [add] sets, and the one that [contains] tests, for hash slot [j] is
    [j * offset + hash[j] mod offset], where [hash[j]] is slot [j] of the
    scratch buffer after the call; it lies in [[j * offset, (j+1) * offset)],
    the partition of slot [j], and below [bitmap_size], so that its byte lies
    before the 12 bytes of the header.  An [add] that answers true has set one
    bit for each of the [k] slots, and no [add] changes a byte of the header. *)
Theorem bit_indices_partitioned (f : BloomFilter.t) (key : list byte) (check_first : bool) :
  BloomFilter.ok f = true -> 1 <= BloomFilter.offset f ->
  exists b,
    BloomFilter.bitmap f = Some b /\
    BloomFilter.bitmap_size f = 8 * Bitmap.size b - 8 * 12 /\
    BloomFilter.offset f = BloomFilter.bitmap_size f / BloomFilter.k_num f /\
    (forall f1 set r,
       BloomFilter.add f key check_first = (f1, set, r) ->
       (forall (j : nat) idx, set !! j = Some idx ->
          exists h, BloomFilter.hashes f1 !! j = Some h /\
            Z.of_nat j < BloomFilter.k_num f /\
            idx = Z.of_nat j * BloomFilter.offset f + h mod BloomFilter.offset f /\
            Z.of_nat j * BloomFilter.offset f <= idx < (Z.of_nat j + 1) * BloomFilter.offset f /\
            idx < BloomFilter.bitmap_size f /\
            Z.shiftr idx 3 < Bitmap.size b - 12) /\
       (r = Ok true -> Z.of_nat (length set) = BloomFilter.k_num f) /\
       (exists b1, BloomFilter.bitmap f1 = Some b1 /\
          drop (Z.to_nat (Bitmap.size b - 12)) (Bitmap.region b1)
          = drop (Z.to_nat (Bitmap.size b - 12)) (Bitmap.region b))) /\
    (forall f2 tested r,
       BloomFilter.__contains__ f key = (f2, tested, r) ->
       BloomFilter.bitmap f2 = Some b /\
       forall (j : nat) idx, tested !! j = Some idx ->
          exists h, BloomFilter.hashes f2 !! j = Some h /\
            Z.of_nat j < BloomFilter.k_num f /\
            idx = Z.of_nat j * BloomFilter.offset f + h mod BloomFilter.offset f /\
            Z.of_nat j * BloomFilter.offset f <= idx < (Z.of_nat j + 1) * BloomFilter.offset f /\
            idx < BloomFilter.bitmap_size f /\
            Z.shiftr idx 3 < Bitmap.size b - 12).
Proof.
  intros Hok Hm. apply ok_invariant in Hok as [b Hinv].
  pose proof Hinv as (Hb & Hbok & Hs & Hbs & Hk & Hoff & Hc & Hh & Hhk).
  assert (Hslot : forall (j : nat) idx, positions f key !! j = Some idx ->
            exists h, scratch f key !! j = Some h /\
              Z.of_nat j < BloomFilter.k_num f /\
              idx = Z.of_nat j * BloomFilter.offset f + h mod BloomFilter.offset f /\
              Z.of_nat j * BloomFilter.offset f <= idx < (Z.of_nat j + 1) * BloomFilter.offset f /\
              idx < BloomFilter.bitmap_size f /\
              Z.shiftr idx 3 < Bitmap.size b - 12).
  { intros j idx Hj.
    destruct (positions_in_range f b key j idx Hinv Hm Hj) as (Hpart & Hjk & Hr & Heq).
    destruct (key_hashes_slot (BloomFilter.k_num f) key
                (drop (Z.to_nat (4 * BloomFilter.rounds (BloomFilter.k_num f)))
                   (BloomFilter.hashes f)) j ltac:(lia) Hjk) as (h & Hh1 & Hh2).
    exists h. split; [exact Hh1|]. rewrite Hh2 in Heq. cbn [default] in Heq.
    split; [exact Hjk|]. split; [exact Heq|]. split; [exact Hpart|].
    split; [lia|].
    rewrite shiftr_3. apply Z.div_lt_upper_bound; lia. }
  exists b. split; [exact Hb|]. split; [lia|]. split; [exact Hoff|]. split.
  - intros f1 set r Hadd.
    pose proof (add_spec f b key check_first Hinv Hm) as Hspec.
    destruct (check_first && forallb (bit_of (Bitmap.region b)) (positions f key)).
    + rewrite Hspec in Hadd. injection Hadd as <- <- <-.
      split; [intros j idx Hj; rewrite lookup_nil in Hj; discriminate|].
      split; [discriminate|].
      exists b. split; [exact Hb | reflexivity].
    + destruct Hspec as (b' & Hspec & Hbits). rewrite Hspec in Hadd.
      injection Hadd as <- <- <-. cbn [BloomFilter.hashes BloomFilter.bitmap].
      split; [exact Hslot|].
      split; [intros _; apply length_positions; lia|].
      exists b'. split; [reflexivity|].
      destruct Hbits as (_ & _ & _ & [Hsize Hbytes] & _).
      apply list_eq. intros q. rewrite !lookup_drop. apply Hbytes. lia.
  - intros f2 tested r Hcont.
    destruct (contains_spec f b key Hinv Hm) as (t & Ht & Hspec).
    rewrite Hspec in Hcont. injection Hcont as <- <- <-.
    cbn [BloomFilter.with_hashes BloomFilter.hashes BloomFilter.bitmap].
    split; [exact Hb|].
    intros j idx Hj. apply Hslot. apply (positions_upto_lookup f key t); assumption.
Qed.

Lemma bit_indices_partitioned_witness :
  snd (fst (BloomFilter.add (new_filter (anonymous 32) 7) key_test false))
    = [17; 38; 58; 66; 101; 129; 140] /\
  exists b, BloomFilter.bitmap (new_filter (anonymous 32) 7) = Some b /\
            BloomFilter.bitmap_size (new_filter (anonymous 32) 7) = 8 * Bitmap.size b - 8 * 12.
Proof.
  split; [reflexivity|].
  destruct (bit_indices_partitioned (new_filter (anonymous 32) 7) key_test false)
    as (b & Hb & Hbs & _).
  - reflexivity.
  - vm_compute. discriminate.
  - exists b. split; [exact Hb | exact Hbs].
Defined.




(** C10. [contains] is a read-only query.  After any sequence of [contains]
    calls on any filter, the bitmap (every byte of it, the header included)
    and the count are what they were, and so are [k], the bit count and the
    partition width: the calls write the scratch buffer only.  For a filter
    that satisfies the invariant, the filter after the calls satisfies it and
    gives every later query the answer the filter would have given before
    them, and with [offset >= 1] each query returns a boolean. *)
Theorem contains_read_only (f : BloomFilter.t) (keys : list (list byte)) :
  BloomFilter.bitmap (after_queries f keys) = BloomFilter.bitmap f /\
  BloomFilter.count (after_queries f keys) = BloomFilter.count f /\
  BloomFilter.k_num (after_queries f keys) = BloomFilter.k_num f /\
  BloomFilter.bitmap_size (after_queries f keys) = BloomFilter.bitmap_size f /\
  BloomFilter.offset (after_queries f keys) = BloomFilter.offset f /\
  (BloomFilter.ok f = true ->
   BloomFilter.ok (after_queries f keys) = true /\
   (forall key,
      BloomFilter.contains (after_queries f keys) key = BloomFilter.contains f key) /\
   (1 <= BloomFilter.offset f ->
    forall key, exists answer : bool, BloomFilter.contains f key = Ok answer)).
Proof.
  assert (Hframe : forall g key,
            let g' := fst (fst (BloomFilter.__contains__ g key)) in
            BloomFilter.bitmap g' = BloomFilter.bitmap g /\
            BloomFilter.count g' = BloomFilter.count g /\
            BloomFilter.k_num g' = BloomFilter.k_num g /\
            BloomFilter.bitmap_size g' = BloomFilter.bitmap_size g /\
            BloomFilter.offset g' = BloomFilter.offset g).
  { intros g key. unfold BloomFilter.__contains__.
    destruct (BloomFilter._compute_hashes g key) as [hs|e]; cbn [fst].
    - destruct (BloomFilter.contains_loop _ _ _ _ _ _). cbn. repeat split; reflexivity.
    - repeat split; reflexivity. }
  assert (Hstep : forall g key,
            BloomFilter.ok g = true ->
            BloomFilter.ok (fst (fst (BloomFilter.__contains__ g key))) = true /\
            forall key', BloomFilter.contains (fst (fst (BloomFilter.__contains__ g key))) key'
                         = BloomFilter.contains g key').
  { intros g key Hok. apply ok_invariant in Hok as [b Hinv].
    assert (Hg : fst (fst (BloomFilter.__contains__ g key))
                 = BloomFilter.with_hashes g (scratch g key)).
    { pose proof Hinv as (_ & _ & Hs & Hbs & Hk & Hoff & _).
      destruct (Z.eq_dec (BloomFilter.offset g) 0) as [Hz|Hnz].
      - rewrite (contains_offset_zero g b key Hinv Hz). reflexivity.
      - assert (0 <= BloomFilter.offset g) by (rewrite Hoff; apply Z.div_pos; lia).
        destruct (contains_spec g b key Hinv ltac:(lia)) as (t & _ & ->). reflexivity. }
    rewrite Hg. split.
    - apply ok_invariant. exists b. apply invariant_with_hashes. exact Hinv.
    - intros key'. apply (contains_with_hashes g b); [exact Hinv|].
      destruct Hinv as (_ & _ & _ & _ & Hk & _ & _ & Hh & _).
      apply length_scratch; [lia | exact Hh]. }
  unfold after_queries. revert f.
  induction keys as [|key keys IH]; intros f; cbn [fold_left].
  - do 5 (split; [reflexivity|]). intros Hok.
    split; [exact Hok|]. split; [reflexivity|].
    intros Hm key. apply ok_invariant in Hok as [b Hinv]. unfold BloomFilter.contains.
    destruct (contains_spec f b key Hinv Hm) as (t & _ & ->). eexists. reflexivity.
  - destruct (IH (fst (fst (BloomFilter.__contains__ f key))))
      as (H1 & H2 & H3 & H4 & H5 & H6).
    destruct (Hframe f key) as (F1 & F2 & F3 & F4 & F5).
    do 5 (split; [congruence|]).
    intros Hok. destruct (Hstep f key Hok) as [Hok1 Hsame].
    destruct (H6 Hok1) as (Hok2 & Hsame2 & _).
    split; [exact Hok2|]. split.
    + intros key'. rewrite Hsame2. apply Hsame.
    + intros Hm key'. apply ok_invariant in Hok as [b Hinv]. unfold BloomFilter.contains.
      destruct (contains_spec f b key' Hinv Hm) as (t & _ & ->). eexists. reflexivity.
Qed.

Lemma contains_read_only_witness :
  BloomFilter.ok (after_queries (new_filter (anonymous 32) 7) [key_test; []; key_test]) = true /\
  BloomFilter.contains (new_filter (anonymous 32) 7) key_test = Ok false.
Proof.
  destruct (contains_read_only (new_filter (anonymous 32) 7) [key_test; []; key_test])
    as (_ & _ & _ & _ & _ & H).
  destruct H as (Hok & _ & _); [reflexivity|].
  split; [exact Hok | reflexivity].
Defined.

(** ** BloomFilter: the header, flushing and reopening *)

(** C9. When [flush] fails, the error is the OS error of the flush of the
    bitmap, and the state seen through the public interface is what it was
    before the call: the count, [k], and the answer of [contains] for every
    key; the filter still satisfies the invariant. *)
Theorem flush_failure_keeps_state
        (f : BloomFilter.t) (w : OS) (f' : BloomFilter.t) (w' : OS) (e : exn) :
  BloomFilter.ok f = true ->
  BloomFilter.flush f w = (f', w', Raise e) ->
  e = OSError /\
  BloomFilter.__len__ f' = BloomFilter.__len__ f /\
  BloomFilter.k_num f' = BloomFilter.k_num f /\
  BloomFilter.offset f' = BloomFilter.offset f /\
  (forall key, BloomFilter.contains f' key = BloomFilter.contains f key) /\
  BloomFilter.ok f' = true.
Proof.
  intros Hok Hflush. apply ok_invariant in Hok as [b Hinv].
  rewrite (flush_spec f b w Hinv) in Hflush. injection Hflush as <- <- He.
  destruct (flushed_facts f b Hinv) as (Hinv' & Hsame & _).
  split.
  { destruct (bitmap_flush_outcome (flushed f b) w) as [H|H]; rewrite H in He; congruence. }
  split; [reflexivity|]. split; [reflexivity|]. split; [reflexivity|]. split.
  - intros key. apply (contains_same_bits f b _ (flushed f b)); try assumption. reflexivity.
  - apply ok_invariant. exists (flushed f b). exact Hinv'.
Qed.

Lemma flush_failure_keeps_state_witness :
  snd (BloomFilter.flush on_file failing) = Raise OSError /\
  BloomFilter.contains (fst (fst (BloomFilter.flush on_file failing))) key_test = Ok true.
Proof.
  destruct (flush_failure_keeps_state on_file failing
              (fst (fst (BloomFilter.flush on_file failing)))
              (snd (fst (BloomFilter.flush on_file failing))) OSError)
    as (_ & _ & _ & _ & Hsame & _).
  - reflexivity.
  - reflexivity.
  - split; [reflexivity|]. rewrite Hsame. reflexivity.
Defined.

(** C2. After [flush] and [close] of a filter, a filter constructed (with
    any [k >= 1], in any state of the system) over an open bitmap that holds
    the bytes the closed bitmap held has the same [k] and the same count, and
    [contains] answers for every key what it answered in the original filter;
    in particular it reports every key that the original reported. *)
Theorem reopen_round_trip
        (f f1 f2 : BloomFilter.t) (w w1 w2 : OS) (b2 : Bitmap.t)
        (b' : Bitmap.t) (k' : Z) (w' : OS) :
  BloomFilter.ok f = true ->
  BloomFilter.flush f w = (f1, w1, Ok tt) ->
  BloomFilter.close f1 w1 = (f2, Some b2, w2, Ok tt) ->
  Bitmap.ok b' = true -> Bitmap.region b' = Bitmap.region b2 -> 1 <= k' ->
  exists f',
    BloomFilter.__cinit__ (Some b') (Some k') w' = (f', w', Ok tt) /\
    BloomFilter.ok f' = true /\
    BloomFilter.k_num f' = BloomFilter.k_num f /\
    BloomFilter.__len__ f' = BloomFilter.__len__ f /\
    (forall key, BloomFilter.contains f key = Ok true ->
                 BloomFilter.contains f' key = Ok true) /\
    (forall key, BloomFilter.contains f' key = BloomFilter.contains f key).
Proof.
  intros Hok Hflush Hclose Hok' Hregion Hk'.
  apply ok_invariant in Hok as [b Hinv].
  rewrite (flush_spec f b w Hinv) in Hflush. injection Hflush as <- <- _.
  destruct (flushed_facts f b Hinv) as (Hinv1 & Hsame1 & Hcount1 & Hhk1 & _).
  destruct (close_spec _ _ _ _ _ _ Hinv1 Hclose) as (_ & b2' & Hrel & _ & Hreg2).
  injection Hrel as <-.
  destruct (flushed_facts _ _ Hinv1) as (Hinv2 & Hsame2 & Hcount2 & Hhk2 & _).
  cbn [BloomFilter.with_bitmap BloomFilter.count] in Hcount2.
  rewrite Hreg2 in Hregion.
  destruct (same_region _ _ Hregion) as (Hsize & Hhk & Hcount & Hsame3).
  pose proof Hinv as (_ & _ & Hs & _ & Hk & _ & _ & _ & Hhkf).
  pose proof Hinv2 as (_ & _ & Hs2 & _).
  assert (Hstored : header_k b' = BloomFilter.k_num f) by congruence.
  assert (Hnz : header_k b' <> 0) by lia.
  assert (Hs' : 12 < Bitmap.size b') by lia.
  exists (opened b' (header_k b')).
  split; [apply cinit_existing; assumption|].
  pose proof (opened_invariant b' Hok' Hs' Hnz) as Hinv'.
  assert (Hall : forall key,
            BloomFilter.contains (opened b' (header_k b')) key = BloomFilter.contains f key).
  { intros key. apply (contains_same_bits f b _ b'); try assumption.
    apply (same_bits_trans _ _ _ Hsame1). apply (same_bits_trans _ _ _ Hsame2). exact Hsame3. }
  split; [apply ok_invariant; exists b'; exact Hinv'|].
  split; [exact Hstored|].
  split; [unfold BloomFilter.__len__, opened; cbn [BloomFilter.count]; congruence|].
  split; [|exact Hall].
  intros key Hyes. rewrite Hall. exact Hyes.
Qed.

Lemma reopen_round_trip_witness :
  exists f',
    BloomFilter.__cinit__ (Some (file_backed 4 closed_bytes)) (Some 1) quiet
      = (f', quiet, Ok tt) /\
    BloomFilter.k_num f' = 7 /\ BloomFilter.__len__ f' = 1 /\
    BloomFilter.contains f' key_test = Ok true.
Proof.
  destruct (reopen_round_trip on_file
              (fst (fst flushed_on_file)) (fst (fst (fst closed_on_file)))
              quiet (snd (fst flushed_on_file)) (snd (fst closed_on_file))
              (Bitmap.mk 3 false false closed_bytes)
              (file_backed 4 closed_bytes) 1 quiet)
    as (f' & Hinit & _ & Hk & Hlen & Hyes & _).
  - reflexivity.
  - reflexivity.
  - reflexivity.
  - reflexivity.
  - reflexivity.
  - lia.
  - exists f'. split; [exact Hinit|]. split; [exact Hk|]. split; [exact Hlen|].
    apply Hyes. reflexivity.
Defined.

(** ** BloomFilter: construction *)



(** C8, as the code has it.  The constructor raises [ValueError] for every
    [k < 1] and, with [k >= 1], for a bitmap of exactly 12 bytes.  Over a
    bitmap of more than 12 bytes with [k >= 1] it raises no [ValueError]; it
    succeeds when the stored [k] is not 0, and when the stored [k] is 0 and
    [k < 2^32] its outcome is that of the flush after the header write:
    success, or the OS error of the flush; it succeeds when the bitmap is
    anonymous or no system call fails. *)
Theorem construction_errors (b : Bitmap.t) (k : Z) (w : OS) :
  Bitmap.ok b = true ->
  (k < 1 -> snd (BloomFilter.__cinit__ (Some b) (Some k) w) = Raise ValueError) /\
  (1 <= k -> Bitmap.size b = 12 ->
   snd (BloomFilter.__cinit__ (Some b) (Some k) w) = Raise ValueError) /\
  (1 <= k -> 12 < Bitmap.size b ->
   snd (BloomFilter.__cinit__ (Some b) (Some k) w) <> Raise ValueError /\
   (header_k b <> 0 -> snd (BloomFilter.__cinit__ (Some b) (Some k) w) = Ok tt) /\
   (header_k b = 0 -> k < 2 ^ 32 ->
    snd (BloomFilter.__cinit__ (Some b) (Some k) w) = snd (Bitmap.flush (stamped b k) w) /\
    (snd (BloomFilter.__cinit__ (Some b) (Some k) w) = Ok tt \/
     snd (BloomFilter.__cinit__ (Some b) (Some k) w) = Raise OSError) /\
    (Bitmap.fileno b = -1 \/ pending w = [] ->
     snd (BloomFilter.__cinit__ (Some b) (Some k) w) = Ok tt))).
Proof.
  intros Hok. split; [|split].
  - intros Hk. unfold BloomFilter.__cinit__.
    replace (k <? 1) with true by (symmetry; apply Z.ltb_lt; exact Hk). reflexivity.
  - intros Hk Hs. unfold BloomFilter.__cinit__.
    replace (k <? 1) with false by (symmetry; apply Z.ltb_ge; lia).
    rewrite (len_ok b Hok), Hs. reflexivity.
  - intros Hk Hs. destruct (Z.eq_dec (header_k b) 0) as [Hz|Hnz].
    + destruct (Z.lt_ge_cases k (2 ^ 32)) as [Hlt|Hge].
      * rewrite (cinit_fresh b k w Hok Hs ltac:(lia) Hz). cbn [snd].
        pose proof (bitmap_flush_outcome (stamped b k) w) as Hout.
        split; [destruct Hout as [-> | ->]; discriminate|].
        split; [intros Hnz; contradiction|].
        intros _ _. split; [reflexivity|]. split; [exact Hout|].
        intros Hq. apply flush_succeeds. exact Hq.
      * rewrite cinit_prefix by assumption. rewrite Hz. cbn [Z.eqb].
        unfold Bitmap.as_uint.
        replace ((k <? 0) || (2 ^ 32 <=? k)) with true
          by (symmetry; apply orb_true_iff; right; apply Z.leb_le; exact Hge).
        cbn [snd]. split; [discriminate|]. split; [intros Hnz; contradiction|].
        intros _ Hlt. lia.
    + rewrite (cinit_existing b k w Hok Hs Hk Hnz). cbn [snd].
      split; [discriminate|]. split; [reflexivity|]. intros Hzz. contradiction.
Qed.

Lemma construction_errors_witness :
  snd (BloomFilter.__cinit__ (Some (anonymous 32)) (Some 0) quiet) = Raise ValueError /\
  snd (BloomFilter.__cinit__ (Some (anonymous 12)) (Some 7) quiet) = Raise ValueError /\
  snd (BloomFilter.__cinit__ (Some (anonymous 32)) (Some 7) quiet) = Ok tt.
Proof.
  split; [|split].
  - destruct (construction_errors (anonymous 32) 0 quiet) as (H & _);
      [reflexivity|]. apply H. lia.
  - destruct (construction_errors (anonymous 12) 7 quiet) as (_ & H & _);
      [reflexivity|]. apply H; [lia | reflexivity].
  - destruct (construction_errors (anonymous 32) 7 quiet) as (_ & _ & H);
      [reflexivity|].
    destruct H as (_ & _ & Hfresh);
      [lia | change (Bitmap.size (anonymous 32)) with 32; lia |].
    destruct Hfresh as (_ & _ & Hq); [reflexivity | lia |].
    apply Hq. left. reflexivity.
Defined.

(** C8 as stated fails at three constructions.  Over an 11-byte bitmap the
    conversion of [len(bitmap) - 96 = -8] to the [size_t] attribute raises
    [OverflowError], not [ValueError].  Over a fresh 13-byte bitmap,
    [k = 2^32] does not fit [unsigned int] and raises [OverflowError]; and
    with [k = 1], when the flush of a file-backed bitmap fails, the
    constructor raises the OS error. *)
Lemma construction_errors_counterexample :
  snd (BloomFilter.__cinit__ (Some (anonymous 11)) (Some 1) quiet) = Raise OverflowError /\
  snd (BloomFilter.__cinit__ (Some (anonymous 13)) (Some (2 ^ 32)) quiet)
  = Raise OverflowError /\
  snd (BloomFilter.__cinit__ (Some (file_backed 3 (repeat Byte.x00 13))) (Some 1) failing)
  = Raise OSError.
Proof. vm_compute. repeat split; reflexivity. Qed.

(** ** ScalingBloomFilter: the probability budget of the layers *)

Lemma layer_prob_partial_sum (prob r : R) (n : nat) :
  sum_f_R0 (layer_prob prob r) n = (prob * (1 - r ^ S n))%R.
Proof.
  induction n as [|n IH].
  - cbn. unfold layer_prob, first_layer_prob. cbn. ring.
  - cbn [sum_f_R0]. rewrite IH. unfold layer_prob, first_layer_prob. cbn [pow]. ring.
Qed.

(** C3. For [0 < prob < 1] and [0 < r < 1], with [p0 = prob * (1 - r)] and
    [p_i = p0 * r^i]: every partial sum of the [p_i] is at most [prob], the
    series converges, its sum is [prob], so any sum of it is at most [prob];
    and with the default [r = 0.9], [p0 = 0.1 * prob]. *)
Theorem layer_probabilities_bounded (prob r : R) :
  (0 < prob < 1)%R -> (0 < r < 1)%R ->
  (forall n, (sum_f_R0 (layer_prob prob r) n <= prob)%R) /\
  infinite_sum (layer_prob prob r) prob /\
  (forall l, infinite_sum (layer_prob prob r) l -> (l <= prob)%R) /\
  first_layer_prob prob default_scale_prob = (1 / 10 * prob)%R.
Proof.
  intros Hp Hr.
  assert (Hsum : infinite_sum (layer_prob prob r) prob).
  { intros eps Heps.
    destruct (pow_lt_1_zero r) with (y := (eps / prob)%R) as [N HN].
    - rewrite Rabs_pos_eq; lra.
    - apply Rdiv_lt_0_compat; lra.
    - exists N. intros n Hn. rewrite layer_prob_partial_sum.
      unfold Rdist.
      replace (prob * (1 - r ^ S n) - prob)%R with (- (prob * r ^ S n))%R by ring.
      rewrite Rabs_Ropp, Rabs_mult, (Rabs_pos_eq prob) by lra.
      specialize (HN (S n) ltac:(lia)).
      apply (Rmult_lt_compat_l prob) in HN; [|lra].
      replace (prob * (eps / prob))%R with eps in HN by (field; lra).
      exact HN. }
  split.
  - intros n. rewrite layer_prob_partial_sum.
    assert (0 < r ^ S n)%R by (apply pow_lt; lra). nra.
  - split; [exact Hsum|]. split.
    + intros l Hl. rewrite (uniqueness_sum _ _ _ Hl Hsum). lra.
    + unfold first_layer_prob, default_scale_prob. lra.
Qed.

Lemma layer_probabilities_bounded_witness :
  (sum_f_R0 (layer_prob (1 / 100) default_scale_prob) 2 <= 1 / 100)%R /\
  first_layer_prob (1 / 100) default_scale_prob = (1 / 10 * (1 / 100))%R.
Proof.
  destruct (layer_probabilities_bounded (1 / 100) default_scale_prob) as (Hpart & _ & _ & Hp0).
  - lra.
  - unfold default_scale_prob. lra.
  - split; [apply Hpart | exact Hp0].
Defined.

(** * Further properties of the code *)

(** ** Facts used below *)

Section FurtherFacts.

Import BloomFilter.

Lemma byte_bits_eq (c d : byte) :
  (forall p, 0 <= p < 8 -> Z.testbit (byte.unsigned c) p = Z.testbit (byte.unsigned d) p) ->
  c = d.
Proof.
  intros H. apply byte.unsigned_inj.
  rewrite <- (byte.wrap_unsigned c), <- (byte.wrap_unsigned d).
  unfold byte.wrap. apply Z.bits_inj'. intros p Hp.
  destruct (Z.lt_ge_cases p 8).
  - rewrite !Z.mod_pow2_bits_low by lia. apply H. lia.
  - rewrite !Z.mod_pow2_bits_high by lia. reflexivity.
Qed.

(** Two regions of one length that agree on every bit are the same bytes. *)
Lemma region_bits_eq (r r' : list byte) :
  length r' = length r ->
  (forall idx, 0 <= idx < 8 * Z.of_nat (length r) -> bit_of r' idx = bit_of r idx) ->
  r' = r.
Proof.
  intros Hlen Hbits. apply list_eq. intros q.
  destruct (Nat.lt_ge_cases q (length r)) as [Hq|Hq].
  - destruct (lookup_lt_is_Some_2 r q Hq) as [c Hc].
    destruct (lookup_lt_is_Some_2 r' q ltac:(lia)) as [c' Hc'].
    rewrite Hc, Hc'. f_equal. apply byte_bits_eq. intros p Hp.
    specialize (Hbits (8 * Z.of_nat q + (7 - p)) ltac:(lia)).
    unfold bit_of in Hbits.
    replace ((8 * Z.of_nat q + (7 - p)) / 8) with (Z.of_nat q) in Hbits
      by (apply (Z.div_unique _ 8 _ (7 - p)); lia).
    replace ((8 * Z.of_nat q + (7 - p)) mod 8) with (7 - p) in Hbits
      by (apply (Z.mod_unique _ 8 (Z.of_nat q)); lia).
    rewrite Nat2Z.id, Hc, Hc' in Hbits.
    replace (7 - (7 - p)) with p in Hbits by lia. exact Hbits.
  - rewrite (proj2 (lookup_ge_None r q)) by lia.
    apply lookup_ge_None. lia.
Qed.

Lemma bitmap_eq (b b' : Bitmap.t) :
  Bitmap.fileno b' = Bitmap.fileno b -> Bitmap.fileobj b' = Bitmap.fileobj b ->
  Bitmap.mmap b' = Bitmap.mmap b -> Bitmap.region b' = Bitmap.region b -> b' = b.
Proof. destruct b, b'. cbn. intros -> -> -> ->. reflexivity. Qed.

Lemma positions_bits_set f b key idx :
  invariant f b -> 1 <= offset f ->
  forallb (bit_of (Bitmap.region b)) (positions f key) = true ->
  existsb (Z.eqb idx) (positions f key) = true ->
  bit_of (Bitmap.region b) idx = true.
Proof.
  intros _ _ Hall Hex. apply existsb_exists in Hex as (x & Hx & Heq).
  apply Z.eqb_eq in Heq. subst x.
  apply (proj1 (forallb_forall _ _) Hall). exact Hx.
Qed.

(** What one [add] does, whatever [check_first] is and whatever it answers. *)
Lemma add_outcome f b key check_first :
  invariant f b -> 1 <= offset f ->
  exists b',
    bitmap (fst (fst (add f key check_first))) = Some b' /\
    invariant (fst (fst (add f key check_first))) b' /\
    Bitmap.fileno b' = Bitmap.fileno b /\ Bitmap.fileobj b' = Bitmap.fileobj b /\
    same_header b b' /\
    (forall idx, 0 <= idx ->
       bit_of (Bitmap.region b') idx =
         bit_of (Bitmap.region b) idx || existsb (Z.eqb idx) (positions f key)) /\
    k_num (fst (fst (add f key check_first))) = k_num f /\
    offset (fst (fst (add f key check_first))) = offset f /\
    bitmap_size (fst (fst (add f key check_first))) = bitmap_size f /\
    (snd (add f key check_first) = Ok true /\
     count (fst (fst (add f key check_first))) = wrap64 (count f + 1)
     \/
     snd (add f key check_first) = Ok false /\ check_first = true /\
     contains f key = Ok true /\
     count (fst (fst (add f key check_first))) = count f /\
     bitmap (fst (fst (add f key check_first))) = bitmap f).
Proof.
  intros Hinv Hm. pose proof (add_spec f b key check_first Hinv Hm) as Hspec.
  destruct (check_first && forallb (bit_of (Bitmap.region b)) (positions f key)) eqn:Hcase.
  - rewrite Hspec. cbn [fst snd with_hashes bitmap k_num offset bitmap_size count].
    apply andb_true_iff in Hcase as [-> Hall].
    pose proof Hinv as (Hb & Hok & Hs & _).
    exists b. split; [exact Hb|]. split; [apply invariant_with_hashes; exact Hinv|].
    split; [reflexivity|]. split; [reflexivity|].
    split; [split; [reflexivity | intros; reflexivity]|]. split.
    { intros idx Hidx.
      destruct (existsb (Z.eqb idx) (positions f key)) eqn:Hex; [|rewrite orb_false_r; reflexivity].
      rewrite (positions_bits_set f b key idx Hinv Hm Hall Hex). reflexivity. }
    do 3 (split; [reflexivity|]). right.
    split; [reflexivity|]. split; [reflexivity|]. split.
    { unfold contains. destruct (contains_spec f b key Hinv Hm) as (t & _ & ->).
      cbn [snd]. rewrite Hall. reflexivity. }
    split; reflexivity.
  - destruct Hspec as (b' & -> & Hbits). cbn [fst snd bitmap k_num offset bitmap_size count].
    pose proof Hbits as (Hok' & Hfn & Hfo & Hhead & Hb').
    exists b'. split; [reflexivity|].
    split; [apply (invariant_after_add f b b' key Hinv Hbits)|].
    split; [exact Hfn|]. split; [exact Hfo|]. split; [exact Hhead|]. split; [exact Hb'|].
    do 3 (split; [reflexivity|]). left. split; reflexivity.
Qed.

End FurtherFacts.

Section SequenceFacts.

Import BloomFilter.


Lemma positions_same f f' key :
  k_num f' = k_num f -> offset f' = offset f -> positions f' key = positions f key.
Proof. intros Hk Hoff. unfold positions, positions_upto. rewrite Hk, Hoff. reflexivity. Qed.



End SequenceFacts.

(** ** BloomFilter: sequences of insertions *)





(** X3. The bitmap after insertions does not depend on their order, on
    repetitions or on [check_first]: in a filter with [offset >= 1], adding
    [x] then [y] leaves the same bitmap, byte for byte, as adding [y] then
    [x], and adding [x] a second time leaves the bitmap as the first time
    left it. *)
Theorem add_bitmap_order
        (f : BloomFilter.t) (x y : list byte) (cx cy cx' cy' : bool) :
  BloomFilter.ok f = true -> 1 <= BloomFilter.offset f ->
  BloomFilter.bitmap (after_adds f [(x, cx); (y, cy)])
  = BloomFilter.bitmap (after_adds f [(y, cy'); (x, cx')]) /\
  BloomFilter.bitmap (after_adds f [(x, cx); (x, cx')])
  = BloomFilter.bitmap (after_adds f [(x, cx)]).
Proof.
  intros Hok Hm. apply ok_invariant in Hok as [b Hinv].
  assert (Hboth : forall k1 c1 k2 c2,
            exists b2,
              BloomFilter.bitmap (after_adds f [(k1, c1); (k2, c2)]) = Some b2 /\
              Bitmap.ok b2 = true /\
              Bitmap.fileno b2 = Bitmap.fileno b /\ Bitmap.fileobj b2 = Bitmap.fileobj b /\
              Bitmap.size b2 = Bitmap.size b /\
              forall idx, 0 <= idx ->
                bit_of (Bitmap.region b2) idx =
                  bit_of (Bitmap.region b) idx
                  || existsb (Z.eqb idx) (positions f k1)
                  || existsb (Z.eqb idx) (positions f k2)).
  { intros k1 c1 k2 c2. unfold after_adds. cbn [fold_left fst snd].
    destruct (add_outcome f b k1 c1 Hinv Hm)
      as (b1 & _ & Hinv1 & Hfn1 & Hfo1 & [Hs1 _] & Hbits1 & Hk1 & Hoff1 & _).
    destruct (add_outcome _ b1 k2 c2 Hinv1 ltac:(lia))
      as (b2 & Hb2 & Hinv2 & Hfn2 & Hfo2 & [Hs2 _] & Hbits2 & _).
    exists b2. split; [exact Hb2|].
    split; [destruct Hinv2 as (_ & H & _); exact H|].
    split; [congruence|]. split; [congruence|]. split; [congruence|].
    intros idx Hidx. rewrite Hbits2, Hbits1 by exact Hidx.
    rewrite (positions_same f _ k2 Hk1 Hoff1). reflexivity. }
  assert (Hone : exists b1,
            BloomFilter.bitmap (after_adds f [(x, cx)]) = Some b1 /\
            Bitmap.ok b1 = true /\
            Bitmap.fileno b1 = Bitmap.fileno b /\ Bitmap.fileobj b1 = Bitmap.fileobj b /\
            Bitmap.size b1 = Bitmap.size b /\
            forall idx, 0 <= idx ->
              bit_of (Bitmap.region b1) idx =
                bit_of (Bitmap.region b) idx || existsb (Z.eqb idx) (positions f x)).
  { unfold after_adds. cbn [fold_left fst snd].
    destruct (add_outcome f b x cx Hinv Hm)
      as (b1 & Hb1 & Hinv1 & Hfn1 & Hfo1 & [Hs1 _] & Hbits1 & _).
    exists b1. split; [exact Hb1|].
    split; [destruct Hinv1 as (_ & H & _); exact H|]. repeat split; assumption. }
  assert (Heq : forall b1 b2 : Bitmap.t,
            Bitmap.ok b1 = true -> Bitmap.ok b2 = true ->
            Bitmap.fileno b1 = Bitmap.fileno b -> Bitmap.fileno b2 = Bitmap.fileno b ->
            Bitmap.fileobj b1 = Bitmap.fileobj b -> Bitmap.fileobj b2 = Bitmap.fileobj b ->
            Bitmap.size b1 = Bitmap.size b -> Bitmap.size b2 = Bitmap.size b ->
            (forall idx, 0 <= idx ->
               bit_of (Bitmap.region b1) idx = bit_of (Bitmap.region b2) idx) ->
            Some b1 = Some b2).
  { intros b1 b2 Hok1 Hok2 Hfn1 Hfn2 Hfo1 Hfo2 Hs1 Hs2 Hbits. f_equal.
    apply bitmap_eq; try congruence.
    - rewrite (ok_mmap b1 Hok1), (ok_mmap b2 Hok2). reflexivity.
    - apply region_bits_eq.
      + unfold Bitmap.size in *. lia.
      + intros idx Hidx. apply Hbits. lia. }
  split.
  - destruct (Hboth x cx y cy) as (b2 & -> & Hok2 & Hfn2 & Hfo2 & Hs2 & Hbits2).
    destruct (Hboth y cy' x cx') as (b3 & -> & Hok3 & Hfn3 & Hfo3 & Hs3 & Hbits3).
    apply Heq; try assumption.
    intros idx Hidx. rewrite Hbits2, Hbits3 by exact Hidx.
    rewrite <- !orb_assoc. f_equal. apply orb_comm.
  - destruct (Hboth x cx x cx') as (b2 & -> & Hok2 & Hfn2 & Hfo2 & Hs2 & Hbits2).
    destruct Hone as (b1 & -> & Hok1 & Hfn1 & Hfo1 & Hs1 & Hbits1).
    apply Heq; try assumption.
    intros idx Hidx. rewrite Hbits2, Hbits1 by exact Hidx.
    rewrite <- orb_assoc, orb_diag. reflexivity.
Qed.

Lemma add_bitmap_order_witness :
  BloomFilter.bitmap
    (after_adds (new_filter (anonymous 32) 7) [(key_test, false); ([Byte.x61], true)])
  = BloomFilter.bitmap
      (after_adds (new_filter (anonymous 32) 7) [([Byte.x61], false); (key_test, false)]).
Proof.
  destruct (add_bitmap_order (new_filter (anonymous 32) 7) key_test [Byte.x61]
              false true false false) as (H & _).
  - reflexivity.
  - vm_compute. discriminate.
  - exact H.
Defined.

(** ** BloomFilter: the empty filter and the first insertion *)

Section EmptyFacts.

Import BloomFilter.







End EmptyFacts.



Section OnesFacts.

Import BloomFilter.




End OnesFacts.



(** ** BloomFilter: keys *)

Lemma c_str_nul (key tail : list byte) :
  BloomFilter.c_str (key ++ Byte.x00 :: tail) = BloomFilter.c_str key.
Proof.
  induction key as [|c key IH]; [reflexivity|].
  cbn [app BloomFilter.c_str]. rewrite IH. reflexivity.
Qed.

(** X6. A key is a C string: what follows its first NUL byte is ignored.
    [add] and [contains] treat [key ++ NUL ++ tail] exactly like [key], for
    every filter, so that two keys that differ only after a NUL byte cannot
    be told apart. *)
Theorem key_ends_at_nul
        (f : BloomFilter.t) (key tail : list byte) (check_first : bool) :
  BloomFilter.__contains__ f (key ++ Byte.x00 :: tail) = BloomFilter.__contains__ f key /\
  BloomFilter.add f (key ++ Byte.x00 :: tail) check_first = BloomFilter.add f key check_first.
Proof.
  assert (Hh : BloomFilter._compute_hashes f (key ++ Byte.x00 :: tail)
               = BloomFilter._compute_hashes f key).
  { unfold BloomFilter._compute_hashes. rewrite c_str_nul. reflexivity. }
  assert (Hc : BloomFilter.__contains__ f (key ++ Byte.x00 :: tail)
               = BloomFilter.__contains__ f key).
  { unfold BloomFilter.__contains__. rewrite Hh. reflexivity. }
  split; [exact Hc|].
  unfold BloomFilter.add. rewrite Hc, Hh. reflexivity.
Qed.

(** ** BloomFilter: the invariant *)

Section RunFacts.

Import BloomFilter.

Lemma offset_nonneg f b : invariant f b -> 0 <= offset f.
Proof.
  intros (_ & _ & Hs & Hbs & Hk & -> & _). apply Z.div_pos; lia.
Qed.

Lemma contains_state f b key :
  invariant f b -> fst (fst (__contains__ f key)) = with_hashes f (scratch f key).
Proof.
  intros Hinv. pose proof (offset_nonneg f b Hinv).
  destruct (Z.eq_dec (offset f) 0) as [Hz|Hnz].
  - rewrite (contains_offset_zero f b key Hinv Hz). reflexivity.
  - destruct (contains_spec f b key Hinv ltac:(lia)) as (t & _ & ->). reflexivity.
Qed.

Lemma step_keeps_invariant f b w c :
  invariant f b ->
  exists b', invariant (fst (step (f, w) c)) b' /\ same_shape f (fst (step (f, w) c)) b b'.
Proof.
  intros Hinv. pose proof Hinv as (Hb & Hok & Hs & Hbs & Hk & Hoff & Hc & Hh & Hhk).
  destruct c as [key cf | key |]; cbn [step fst snd].
  - pose proof (offset_nonneg f b Hinv).
    destruct (Z.eq_dec (offset f) 0) as [Hz|Hnz].
    + rewrite (add_offset_zero f b key cf Hinv Hz). cbn [fst].
      exists b. split; [apply invariant_with_hashes; exact Hinv|].
      repeat split; reflexivity.
    + destruct (add_outcome f b key cf Hinv ltac:(lia))
        as (b' & _ & Hinv' & Hfn & Hfo & Hhead & _ & Hk' & Hoff' & Hbs' & _).
      exists b'. split; [exact Hinv'|].
      destruct (same_header_fields b b' Hs Hhead) as [Hhk' _].
      destruct Hhead as [Hsize _].
      repeat split; assumption.
  - rewrite (contains_state f b key Hinv).
    exists b. split; [apply invariant_with_hashes; exact Hinv|].
    repeat split; reflexivity.
  - rewrite (flush_spec f b w Hinv). cbn [fst].
    destruct (flushed_facts f b Hinv) as (Hinv' & [Hsize _] & _ & Hhk' & Hfn & Hfo & _).
    exists (flushed f b). split; [exact Hinv'|].
    repeat split; try assumption; reflexivity.
Qed.

End RunFacts.

(** X7. The invariant of an open filter is kept by every sequence of [add],
    [contains] and [flush] calls, whatever they answer and whether or not a
    flush fails: the filter keeps its bitmap, [k], the partition width and
    the bit count, the count stays below [2^64], and the [k] field of the
    header keeps holding [k]. *)
Theorem calls_keep_invariant (calls : list call) (f : BloomFilter.t) (w : OS) :
  BloomFilter.ok f = true ->
  BloomFilter.ok (fst (run calls (f, w))) = true /\
  BloomFilter.k_num (fst (run calls (f, w))) = BloomFilter.k_num f /\
  BloomFilter.offset (fst (run calls (f, w))) = BloomFilter.offset f /\
  BloomFilter.bitmap_size (fst (run calls (f, w))) = BloomFilter.bitmap_size f /\
  exists b b',
    BloomFilter.bitmap f = Some b /\
    BloomFilter.bitmap (fst (run calls (f, w))) = Some b' /\
    Bitmap.size b' = Bitmap.size b /\
    Bitmap.fileno b' = Bitmap.fileno b /\
    header_k b' = BloomFilter.k_num f.
Proof.
  intros Hok. apply ok_invariant in Hok as [b Hinv].
  assert (Hgen : forall calls f w b,
            invariant f b ->
            exists b', invariant (fst (run calls (f, w))) b' /\
                       same_shape f (fst (run calls (f, w))) b b').
  { clear. induction calls as [|c calls IH]; intros f w b Hinv.
    - exists b. split; [exact Hinv|]. repeat split; reflexivity.
    - unfold run. cbn [fold_left]. fold (run calls (step (f, w) c)).
      destruct (step_keeps_invariant f b w c Hinv) as (b1 & Hinv1 & Hs1).
      destruct (step (f, w) c) as [f1 w1] eqn:Hstep. cbn [fst] in *.
      destruct (IH f1 w1 b1 Hinv1) as (b2 & Hinv2 & Hs2).
      exists b2. split; [exact Hinv2|].
      destruct Hs1 as (A1 & A2 & A3 & A4 & A5 & A6 & A7).
      destruct Hs2 as (B1 & B2 & B3 & B4 & B5 & B6 & B7).
      repeat split; congruence. }
  destruct (Hgen calls f w b Hinv) as (b' & Hinv' & (S1 & S2 & S3 & S4 & S5 & S6 & S7)).
  split; [apply ok_invariant; exists b'; exact Hinv'|].
  split; [exact S1|]. split; [exact S2|]. split; [exact S3|].
  exists b, b'. destruct Hinv as (Hb & _ & _ & _ & _ & _ & _ & _ & Hhk).
  destruct Hinv' as (Hb' & _).
  repeat split; try assumption. congruence.
Qed.

Lemma calls_keep_invariant_witness :
  BloomFilter.ok
    (fst (run [CallAdd key_test true; CallFlush; CallContains []; CallAdd [] false; CallFlush]
              (new_filter (file_backed 3 (repeat Byte.x00 32)) 7, failing))) = true.
Proof.
  destruct (calls_keep_invariant
              [CallAdd key_test true; CallFlush; CallContains []; CallAdd [] false; CallFlush]
              (new_filter (file_backed 3 (repeat Byte.x00 32)) 7) failing) as (H & _).
  - reflexivity.
  - exact H.
Defined.

(** ** BloomFilter: the count in the header *)

Section HeaderFacts.

Import BloomFilter.

Lemma inserts_twice (r val : list byte) (i : nat) :
  list_inserts i val (list_inserts i val r) = list_inserts i val r.
Proof.
  apply list_eq. intros q.
  destruct (Nat.lt_ge_cases q i) as [Hlt|Hge].
  - rewrite !list_lookup_inserts_lt by lia. reflexivity.
  - destruct (Nat.lt_ge_cases q (i + length val)) as [Hin|Hout].
    + destruct (Nat.lt_ge_cases q (length r)) as [Hq|Hq].
      * rewrite !list_lookup_inserts by (rewrite ?length_inserts; lia). reflexivity.
      * rewrite !(proj2 (lookup_ge_None _ _)) by (rewrite ?length_inserts; lia). reflexivity.
    + rewrite !list_lookup_inserts_ge by lia. reflexivity.
Qed.

Lemma flushed_twice f b :
  flushed (with_bitmap f (Some (flushed f b))) (flushed f b) = flushed f b.
Proof.
  unfold flushed at 1. cbn [with_bitmap count].
  assert (Hsize : Bitmap.size (flushed f b) = Bitmap.size b).
  { unfold flushed, Bitmap.size, Bitmap.with_region. cbn [Bitmap.region].
    rewrite length_inserts. reflexivity. }
  rewrite Hsize. unfold flushed, Bitmap.with_region.
  cbn [Bitmap.region Bitmap.fileno Bitmap.fileobj Bitmap.mmap].
  rewrite inserts_twice. reflexivity.
Qed.


End HeaderFacts.

(** X8. [flush] stores the count: after the call, whether the flush of the
    bitmap succeeded or raised its OS error, the eight count bytes of the
    header hold the count, little-endian, so that [_read_count] returns it;
    the [k] field and the count of the filter are as before, and flushing
    again leaves the filter, byte for byte, as the first flush left it. *)
Theorem flush_writes_count (f : BloomFilter.t) (w : OS) :
  BloomFilter.ok f = true ->
  exists b',
    BloomFilter.bitmap (fst (fst (BloomFilter.flush f w))) = Some b' /\
    header_count b' = BloomFilter.count f /\
    BloomFilter._read_count (fst (fst (BloomFilter.flush f w))) = Ok (BloomFilter.count f) /\
    BloomFilter._read_k_num (fst (fst (BloomFilter.flush f w))) = Ok (BloomFilter.k_num f) /\
    BloomFilter.__len__ (fst (fst (BloomFilter.flush f w))) = BloomFilter.__len__ f /\
    (snd (BloomFilter.flush f w) = Ok tt \/ snd (BloomFilter.flush f w) = Raise OSError) /\
    forall w2,
      fst (fst (BloomFilter.flush (fst (fst (BloomFilter.flush f w))) w2))
      = fst (fst (BloomFilter.flush f w)).
Proof.
  intros Hok. apply ok_invariant in Hok as [b Hinv].
  rewrite (flush_spec f b w Hinv). cbn [fst snd].
  destruct (flushed_facts f b Hinv) as (Hinv' & Hsame & Hcount & Hhk & _).
  pose proof Hinv' as (Hb' & Hok' & Hs' & Hbs' & _ & _ & _ & _ & Hhk').
  exists (flushed f b). split; [reflexivity|]. split; [exact Hcount|].
  split; [rewrite (read_count_header _ _ Hb' Hok' Hs' Hbs'); f_equal; exact Hcount|].
  split; [rewrite (read_k_num_header _ _ Hb' Hok' Hs' Hbs'); f_equal; exact Hhk'|].
  split; [reflexivity|]. split; [apply bitmap_flush_outcome|].
  intros w2. rewrite (flush_spec _ _ w2 Hinv'). cbn [fst].
  rewrite flushed_twice. reflexivity.
Qed.

Lemma flush_writes_count_witness :
  BloomFilter._read_count (fst (fst (BloomFilter.flush on_file failing))) = Ok 1.
Proof.
  destruct (flush_writes_count on_file failing) as (b' & _ & _ & Hread & _).
  - reflexivity.
  - exact Hread.
Defined.



(** ** BloomFilter: closing *)

Section CloseFacts.

Import BloomFilter.

Lemma bitmap_close_cases b w :
  Bitmap.mmap b = true ->
  Bitmap.close b true w =
    match snd (Bitmap.flush b w) with
    | Raise e => (b, fst (Bitmap.flush b w), Raise e)
    | Ok _ => (unmapped b, released b (fst (Bitmap.flush b w)), Ok tt)
    end.
Proof.
  intros Hm. unfold Bitmap.close, released, unmapped.
  destruct (Bitmap.flush b w) as [w1 [[]|e]]; cbn [fst snd]; [|reflexivity].
  rewrite Hm. cbn [Bitmap.fileobj Bitmap.fileno Bitmap.mmap Bitmap.region].
  destruct (Bitmap.fileobj b) eqn:Hfo; [reflexivity|].
  destruct b. cbn in *. subst. reflexivity.
Qed.

Lemma close_cases f b w :
  invariant f b ->
  close f w =
    match snd (Bitmap.flush (flushed f b) w) with
    | Raise e =>
        (with_bitmap f (Some (flushed f b)), Some (flushed f b),
         fst (Bitmap.flush (flushed f b) w), Raise e)
    | Ok _ =>
        match snd (Bitmap.flush (flushed f b) (fst (Bitmap.flush (flushed f b) w))) with
        | Raise e =>
            (with_bitmap f (Some (flushed f b)), Some (flushed f b),
             fst (Bitmap.flush (flushed f b) (fst (Bitmap.flush (flushed f b) w))), Raise e)
        | Ok _ =>
            (with_bitmap f None, Some (unmapped (flushed f b)),
             released (flushed f b)
               (fst (Bitmap.flush (flushed f b) (fst (Bitmap.flush (flushed f b) w)))),
             Ok tt)
        end
    end.
Proof.
  intros Hinv.
  destruct (flushed_facts f b Hinv) as (_ & _ & _ & _ & _ & _ & Hmm).
  pose proof Hinv as (Hb & Hok & Hs & _).
  unfold close. rewrite Hb, (truth_ok b Hok) by lia.
  rewrite (flush_spec f b w Hinv).
  destruct (snd (Bitmap.flush (flushed f b) w)) as [[]|e]; [|reflexivity].
  cbn [with_bitmap bitmap].
  rewrite bitmap_close_cases by (rewrite Hmm; apply ok_mmap; exact Hok).
  destruct (snd (Bitmap.flush (flushed f b) (fst (Bitmap.flush (flushed f b) w)))) as [[]|e];
    reflexivity.
Qed.



End CloseFacts.





Lemma flush_quiet_trace b w :
  Bitmap.mmap b = true -> pending w = [] ->
  Bitmap.flush b w =
    (mkOS [] ((if Bitmap.fileno b =? -1 then [] else [Fsync; Msync]) ++ trace w), Ok tt).
Proof.
  intros Hm Hp. unfold Bitmap.flush, c_flush, sys. rewrite Hm.
  destruct (Bitmap.fileno b =? -1).
  - destruct w. cbn in *. subst. reflexivity.
  - rewrite Hp. cbn. reflexivity.
Qed.

(** X12. The system calls of [close], when none of them fails: the bitmap is
    flushed twice (once by [flush], once by the [close] of the bitmap), then
    unmapped, then its file is closed.  For a file-backed bitmap that is
    msync, fsync, msync, fsync, munmap and the close of the file, in this
    order; an anonymous bitmap is only unmapped. *)
Theorem close_system_calls (f : BloomFilter.t) (b : Bitmap.t) (w : OS) :
  BloomFilter.ok f = true -> BloomFilter.bitmap f = Some b -> pending w = [] ->
  snd (BloomFilter.close f w) = Ok tt /\
  trace (snd (fst (BloomFilter.close f w))) =
    (if Bitmap.fileobj b then [Fclose] else [])
    ++ [Munmap]
    ++ (if Bitmap.fileno b =? -1 then [] else [Fsync; Msync; Fsync; Msync])
    ++ trace w.
Proof.
  intros Hok Hb Hp. apply ok_invariant in Hok as [b0 Hinv].
  pose proof Hinv as (Hb0 & Hbok & _). rewrite Hb in Hb0. injection Hb0 as <-.
  destruct (flushed_facts f b Hinv) as (_ & _ & _ & _ & Hfn & Hfo & Hmm).
  assert (Hm : Bitmap.mmap (flushed f b) = true) by (rewrite Hmm; apply ok_mmap; exact Hbok).
  rewrite (close_cases f b w Hinv).
  rewrite (flush_quiet_trace _ w Hm Hp). cbn [fst snd].
  rewrite (flush_quiet_trace (flushed f b) (mkOS [] _) Hm eq_refl). cbn [fst snd trace].
  split; [reflexivity|].
  unfold released, sys. rewrite Hfo, Hfn. cbn [pending trace snd].
  destruct (Bitmap.fileobj b), (Bitmap.fileno b =? -1); reflexivity.
Qed.

Lemma close_system_calls_witness :
  trace (snd (fst (BloomFilter.close on_file quiet)))
  = [Fclose; Munmap; Fsync; Msync; Fsync; Msync].
Proof.
  destruct (close_system_calls on_file
              (default (anonymous 0) (BloomFilter.bitmap on_file)) quiet) as (_ & H).
  - reflexivity.
  - reflexivity.
  - reflexivity.
  - exact H.
Defined.

(** ** Bitmap: slices *)

Section SliceMoreFacts.

Import Bitmap.

Lemma getitem_same_byte b b' idx :
  mmap b' = mmap b ->
  (0 <= idx -> region b' !! Z.to_nat (idx / 8) = region b !! Z.to_nat (idx / 8)) ->
  __getitem__ b' idx = __getitem__ b idx.
Proof.
  intros Hm Hr. unfold __getitem__, as_size_t.
  destruct (Z.ltb_spec idx 0) as [Hneg|Hpos]; [reflexivity|].
  cbn [orb]. destruct (2 ^ 64 <=? idx); [reflexivity|].
  unfold load. rewrite Hm, shiftr_3, (Hr Hpos). reflexivity.
Qed.

Lemma getslice_range b i j s :
  __getslice__ b i j = Ok s ->
  0 <= i < j /\ j <= size b /\ mmap b = true /\
  s = take (Z.to_nat (j - i)) (drop (Z.to_nat i) (region b)).
Proof.
  unfold __getslice__. intros H.
  destruct ((j <=? i) || (i <? 0) || (size b <? j)) eqn:E; [discriminate|].
  rewrite !orb_false_iff in E. destruct E as [[E1 E2] E3].
  destruct (mmap b); [|discriminate]. injection H as <-.
  repeat split; try lia.
Qed.

End SliceMoreFacts.



(** X14. The bytes of a slice are the bits of the bitmap, eight per byte,
    the first bit in the highest position: when [b[i:j]] returns [s], it has
    [j - i] bytes, and for every bit index [idx] of the range
    [8*i <= idx < 8*j] the bit [b[idx]] is bit [7 - idx mod 8] of byte
    [idx / 8 - i] of [s]. *)
Theorem slice_bytes_hold_bits (b : Bitmap.t) (i j : Z) (s : list byte) (idx : Z) :
  Bitmap.ok b = true -> Bitmap.__getslice__ b i j = Ok s -> 8 * i <= idx < 8 * j ->
  Z.of_nat (length s) = j - i /\
  exists c,
    s !! Z.to_nat (idx / 8 - i) = Some c /\
    Bitmap.__getitem__ b idx
    = Ok (Z.b2z (Z.testbit (byte.unsigned c) (7 - idx mod 8))).
Proof.
  intros Hok Hs Hidx.
  apply getslice_range in Hs as (Hi & Hj & Hm & ->).
  assert (Hq : i <= idx / 8 < j).
  { split; [apply Z.div_le_lower_bound; lia | apply Z.div_lt_upper_bound; lia]. }
  split.
  { rewrite length_take, length_drop. unfold Bitmap.size in Hj. lia. }
  destruct (lookup_in_range (Bitmap.region b) (idx / 8)) as [c Hc].
  { unfold Bitmap.size in Hj. lia. }
  exists c. split.
  - rewrite lookup_take_lt by lia. rewrite lookup_drop.
    replace (Z.to_nat i + Z.to_nat (idx / 8 - i))%nat with (Z.to_nat (idx / 8)) by lia.
    exact Hc.
  - rewrite getitem_bit; [|exact Hok|lia]. unfold bit_of. rewrite Hc. reflexivity.
Qed.

Lemma slice_bytes_hold_bits_witness :
  Bitmap.__getitem__ (file_backed 3 [Byte.x00; Byte.x41; Byte.x00]) 9 = Ok 1.
Proof.
  destruct (slice_bytes_hold_bits (file_backed 3 [Byte.x00; Byte.x41; Byte.x00])
              1 2 [Byte.x41] 9) as (_ & c & Hc & Hget).
  - reflexivity.
  - reflexivity.
  - lia.
  - rewrite Hget. injection Hc as <-. reflexivity.
Defined.

(** ** Bitmap: flushing and closing *)

(** X15. The system calls of [Bitmap.flush].  A closed or an anonymous
    bitmap makes none and the call succeeds.  An open file-backed bitmap
    calls msync; when that returns -1 the call raises [OSError] and fsync
    is not called; otherwise fsync is called, and the call raises [OSError]
    exactly when fsync returns -1.  Nothing is unmapped or closed. *)
Theorem bitmap_flush_protocol (b : Bitmap.t) (w : OS) :
  (Bitmap.mmap b = false \/ Bitmap.fileno b = -1 ->
   Bitmap.flush b w = (w, Ok tt)) /\
  (Bitmap.mmap b = true -> Bitmap.fileno b <> -1 ->
   (hd 0 (pending w) = -1 /\
    trace (fst (Bitmap.flush b w)) = Msync :: trace w /\
    snd (Bitmap.flush b w) = Raise OSError) \/
   (hd 0 (pending w) <> -1 /\
    trace (fst (Bitmap.flush b w)) = Fsync :: Msync :: trace w /\
    snd (Bitmap.flush b w)
    = if hd 0 (tl (pending w)) =? -1 then Raise OSError else Ok tt)).
Proof.
  split.
  - intros [Hm | Hf]; unfold Bitmap.flush, c_flush.
    + rewrite Hm. reflexivity.
    + rewrite Hf. cbn [Z.eqb]. destruct (Bitmap.mmap b); reflexivity.
  - intros Hm Hf. unfold Bitmap.flush, c_flush, sys. rewrite Hm.
    apply Z.eqb_neq in Hf. rewrite Hf.
    destruct (pending w) as [|r1 rest]; cbn [hd tl pending trace fst snd].
    + right. split; [lia|]. cbn. split; reflexivity.
    + destruct (Z.eqb_spec r1 (-1)) as [-> | Hr1].
      * left. cbn. repeat split; reflexivity.
      * right. split; [exact Hr1|].
        destruct rest as [|r2 rest]; cbn [hd tl pending trace fst snd].
        -- cbn. split; reflexivity.
        -- destruct (r2 =? -1); cbn; split; reflexivity.
Qed.

Lemma bitmap_flush_protocol_witness :
  trace (fst (Bitmap.flush (file_backed 3 [Byte.x00]) failing)) = [Msync] /\
  snd (Bitmap.flush (file_backed 3 [Byte.x00]) failing) = Raise OSError.
Proof.
  destruct (bitmap_flush_protocol (file_backed 3 [Byte.x00]) failing) as (_ & H).
  destruct H as [(_ & Ht & Hr) | (Hne & _)].
  - reflexivity.
  - cbn. lia.
  - split; [exact Ht | exact Hr].
  - exfalso. apply Hne. reflexivity.
Defined.

(** X16. [Bitmap.close] is final and can be repeated: after a [close] that
    returns, with or without the flush, the bitmap has no mapping and no
    file object while its descriptor and its bytes are what they were; every
    later [close] and every later [flush] returns without a system call and
    leaves the bitmap as it is. *)
Theorem bitmap_close_is_final
        (b : Bitmap.t) (do_flush : bool) (w : OS) (b' : Bitmap.t) (w' : OS) :
  Bitmap.close b do_flush w = (b', w', Ok tt) ->
  Bitmap.mmap b' = false /\ Bitmap.fileobj b' = false /\
  Bitmap.fileno b' = Bitmap.fileno b /\ Bitmap.region b' = Bitmap.region b /\
  (forall again w2, Bitmap.close b' again w2 = (b', w2, Ok tt)) /\
  (forall w2, Bitmap.flush b' w2 = (w2, Ok tt)).
Proof.
  intros H.
  assert (Hb' : Bitmap.mmap b' = false /\ Bitmap.fileobj b' = false /\
                Bitmap.fileno b' = Bitmap.fileno b /\ Bitmap.region b' = Bitmap.region b).
  { unfold Bitmap.close in H.
    destruct (if do_flush then Bitmap.flush b w else (w, Ok tt)) as [w1 [[]|e]];
      [|discriminate].
    destruct b as [fn fo mm r]. cbn [Bitmap.mmap Bitmap.fileobj Bitmap.fileno Bitmap.region] in *.
    destruct mm, fo; cbn in H; injection H as <- _; repeat split; reflexivity. }
  destruct Hb' as (Hm & Hfo & Hfn & Hr).
  repeat split; try assumption.
  - intros again w2. unfold Bitmap.close, Bitmap.flush. rewrite Hm, Hfo.
    destruct again; reflexivity.
  - intros w2. unfold Bitmap.flush. rewrite Hm. reflexivity.
Qed.

Lemma bitmap_close_is_final_witness :
  Bitmap.close (fst (fst (Bitmap.close (file_backed 3 [Byte.x07]) true quiet))) true failing
  = (Bitmap.mk 3 false false [Byte.x07], failing, Ok tt).
Proof.
  destruct (bitmap_close_is_final (file_backed 3 [Byte.x07]) true quiet
              (Bitmap.mk 3 false false [Byte.x07])
              (mkOS [] [Fclose; Munmap; Fsync; Msync]))
    as (_ & _ & _ & _ & Hclose & _).
  - reflexivity.
  - exact (Hclose true failing).
Defined.

(** ** Bitmap: writes of single bits *)

Section BitWriteFacts.

Import Bitmap.

Lemma setitem_ok b idx val b' :
  ok b = true -> 0 <= idx < 8 * size b -> 0 <= val < 2 ^ 32 ->
  __setitem__ b idx val = Ok b' ->
  ok b' = true /\ size b' = size b /\
  fileno b' = fileno b /\ fileobj b' = fileobj b /\ mmap b' = mmap b /\
  (forall j, 0 <= j ->
     bit_of (region b') j = if j =? idx then negb (val =? 0) else bit_of (region b) j).
Proof.
  intros Hok Hi Hv Hset.
  destruct (setitem_bits b idx val Hok Hi Hv)
    as (b1 & Hset1 & Hfn & Hfo & Hm & Hs & _ & Hbits).
  rewrite Hset in Hset1. injection Hset1 as <-.
  repeat split; try assumption.
  unfold ok in *. rewrite Hm, Hs. exact Hok.
Qed.

Lemma bitmap_bits_eq b b' :
  fileno b' = fileno b -> fileobj b' = fileobj b -> mmap b' = mmap b ->
  size b' = size b ->
  (forall j, 0 <= j < 8 * size b -> bit_of (region b') j = bit_of (region b) j) ->
  b' = b.
Proof.
  intros Hfn Hfo Hm Hs Hbits. apply bitmap_eq; try assumption.
  apply region_bits_eq; [unfold size in Hs; lia | exact Hbits].
Qed.

End BitWriteFacts.

(** X17. Writes of two different bits commute: for an open bitmap, two
    different indices in range and two values that fit [unsigned int],
    [b[i1] = v1; b[i2] = v2] and [b[i2] = v2; b[i1] = v1] both succeed and
    leave the same bitmap, in which [b[i1]] reads 1 exactly when [v1] is
    nonzero and [b[i2]] reads 1 exactly when [v2] is nonzero. *)
Theorem setitem_commutes (b : Bitmap.t) (i1 i2 v1 v2 : Z) :
  Bitmap.ok b = true ->
  0 <= i1 < 8 * Bitmap.size b -> 0 <= i2 < 8 * Bitmap.size b -> i1 <> i2 ->
  0 <= v1 < 2 ^ 32 -> 0 <= v2 < 2 ^ 32 ->
  exists b',
    (b1 ← Bitmap.__setitem__ b i1 v1; Bitmap.__setitem__ b1 i2 v2) = Ok b' /\
    (b2 ← Bitmap.__setitem__ b i2 v2; Bitmap.__setitem__ b2 i1 v1) = Ok b' /\
    Bitmap.__getitem__ b' i1 = Ok (Z.b2z (negb (v1 =? 0))) /\
    Bitmap.__getitem__ b' i2 = Ok (Z.b2z (negb (v2 =? 0))).
Proof.
  intros Hok H1 H2 Hne Hv1 Hv2.
  destruct (setitem_bits b i1 v1 Hok H1 Hv1) as (b1 & Hs1 & _).
  destruct (setitem_ok b i1 v1 b1 Hok H1 Hv1 Hs1) as (Hok1 & Hz1 & Hfn1 & Hfo1 & Hm1 & Hb1).
  destruct (setitem_bits b1 i2 v2 Hok1 ltac:(lia) Hv2) as (b12 & Hs12 & _).
  destruct (setitem_ok b1 i2 v2 b12 Hok1 ltac:(lia) Hv2 Hs12)
    as (Hok12 & Hz12 & Hfn12 & Hfo12 & Hm12 & Hb12).
  destruct (setitem_bits b i2 v2 Hok H2 Hv2) as (b2 & Hs2 & _).
  destruct (setitem_ok b i2 v2 b2 Hok H2 Hv2 Hs2) as (Hok2 & Hz2 & Hfn2 & Hfo2 & Hm2 & Hb2).
  destruct (setitem_bits b2 i1 v1 Hok2 ltac:(lia) Hv1) as (b21 & Hs21 & _).
  destruct (setitem_ok b2 i1 v1 b21 Hok2 ltac:(lia) Hv1 Hs21)
    as (Hok21 & Hz21 & Hfn21 & Hfo21 & Hm21 & Hb21).
  assert (Heq : b21 = b12).
  { apply bitmap_bits_eq; try congruence.
    intros j Hj. rewrite Hb21, Hb12, Hb2, Hb1 by lia.
    destruct (Z.eqb_spec j i1) as [-> | Hj1]; [|reflexivity].
    destruct (Z.eqb_spec i1 i2); [contradiction|reflexivity]. }
  exists b12. rewrite Hs1, Hs2. cbn [mbind result_bind].
  split; [exact Hs12|]. split; [rewrite Hs21, Heq; reflexivity|].
  split.
  - rewrite getitem_bit by (assumption || lia). rewrite Hb12, Hb1 by lia.
    destruct (Z.eqb_spec i1 i2); [contradiction|]. rewrite Z.eqb_refl. reflexivity.
  - rewrite getitem_bit by (assumption || lia). rewrite Hb12 by lia.
    rewrite Z.eqb_refl. reflexivity.
Qed.

Lemma setitem_commutes_witness :
  exists b',
    (b1 ← Bitmap.__setitem__ (anonymous 2) 3 1; Bitmap.__setitem__ b1 12 7) = Ok b' /\
    (b2 ← Bitmap.__setitem__ (anonymous 2) 12 7; Bitmap.__setitem__ b2 3 1) = Ok b'.
Proof.
  destruct (setitem_commutes (anonymous 2) 3 12 1 7) as (b' & H1 & H2 & _).
  - reflexivity.
  - change (Bitmap.size (anonymous 2)) with 2. lia.
  - change (Bitmap.size (anonymous 2)) with 2. lia.
  - lia.
  - lia.
  - lia.
  - exists b'. split; [exact H1 | exact H2].
Defined.

(** X18. Of two writes of the same bit the last one wins, and writing back
    what a bit reads changes nothing: for an open bitmap and an index in
    range, [b[i] = v1; b[i] = v2] leaves the bitmap that [b[i] = v2] alone
    leaves, and [b[i] = b[i]] leaves [b]. *)
Theorem setitem_last_wins (b : Bitmap.t) (i v1 v2 : Z) :
  Bitmap.ok b = true -> 0 <= i < 8 * Bitmap.size b ->
  0 <= v1 < 2 ^ 32 -> 0 <= v2 < 2 ^ 32 ->
  (exists b',
     (b1 ← Bitmap.__setitem__ b i v1; Bitmap.__setitem__ b1 i v2) = Ok b' /\
     Bitmap.__setitem__ b i v2 = Ok b') /\
  (v ← Bitmap.__getitem__ b i; Bitmap.__setitem__ b i v) = Ok b.
Proof.
  intros Hok Hi Hv1 Hv2.
  destruct (setitem_bits b i v1 Hok Hi Hv1) as (b1 & Hs1 & _).
  destruct (setitem_ok b i v1 b1 Hok Hi Hv1 Hs1) as (Hok1 & Hz1 & Hfn1 & Hfo1 & Hm1 & Hb1).
  destruct (setitem_bits b1 i v2 Hok1 ltac:(lia) Hv2) as (b12 & Hs12 & _).
  destruct (setitem_ok b1 i v2 b12 Hok1 ltac:(lia) Hv2 Hs12)
    as (Hok12 & Hz12 & Hfn12 & Hfo12 & Hm12 & Hb12).
  destruct (setitem_bits b i v2 Hok Hi Hv2) as (b2 & Hs2 & _).
  destruct (setitem_ok b i v2 b2 Hok Hi Hv2 Hs2) as (Hok2 & Hz2 & Hfn2 & Hfo2 & Hm2 & Hb2).
  split.
  - exists b2. rewrite Hs1. cbn [mbind result_bind]. split; [|exact Hs2].
    rewrite Hs12. f_equal. apply bitmap_bits_eq; try congruence.
    intros j Hj. rewrite Hb12, Hb2, Hb1 by lia.
    destruct (j =? i); reflexivity.
  - rewrite getitem_bit by assumption. cbn [mbind result_bind].
    assert (Hv : 0 <= Z.b2z (bit_of (Bitmap.region b) i) < 2 ^ 32)
      by (destruct (bit_of (Bitmap.region b) i); cbn; lia).
    destruct (setitem_bits b i _ Hok Hi Hv) as (b3 & Hs3 & _).
    destruct (setitem_ok b i _ b3 Hok Hi Hv Hs3) as (Hok3 & Hz3 & Hfn3 & Hfo3 & Hm3 & Hb3).
    rewrite Hs3. f_equal. apply bitmap_bits_eq; try congruence.
    intros j Hj. rewrite Hb3 by lia.
    destruct (Z.eqb_spec j i) as [-> | Hji]; [|reflexivity].
    destruct (bit_of (Bitmap.region b) i); reflexivity.
Qed.

Lemma setitem_last_wins_witness :
  (v ← Bitmap.__getitem__ (file_backed 3 [Byte.x41]) 1;
   Bitmap.__setitem__ (file_backed 3 [Byte.x41]) 1 v)
  = Ok (file_backed 3 [Byte.x41]).
Proof.
  destruct (setitem_last_wins (file_backed 3 [Byte.x41]) 1 0 1) as (_ & H).
  - reflexivity.
  - change (Bitmap.size (file_backed 3 [Byte.x41])) with 1. lia.
  - lia.
  - lia.
  - exact H.
Defined.

(** ** BloomFilter: what the construction writes *)

(** X19. The constructor writes at most the four bytes of the [k] field:
    over an open bitmap of more than 12 bytes and for [k >= 1], however the
    call ends, the filter holds a bitmap of the same size, descriptor and
    mapping in which every bit before the last 32 reads as before and the
    stored count is the same.  When the stored [k] is nonzero nothing at all
    is written: the bitmap is the one passed in, no system call is made and
    the call succeeds. *)
Theorem construction_writes_only_k (b : Bitmap.t) (k : Z) (w : OS) :
  Bitmap.ok b = true -> 12 < Bitmap.size b -> 1 <= k ->
  exists b',
    BloomFilter.bitmap (fst (fst (BloomFilter.__cinit__ (Some b) (Some k) w))) = Some b' /\
    Bitmap.size b' = Bitmap.size b /\
    Bitmap.fileno b' = Bitmap.fileno b /\ Bitmap.fileobj b' = Bitmap.fileobj b /\
    Bitmap.mmap b' = Bitmap.mmap b /\
    (forall idx, idx < 8 * Bitmap.size b - 32 ->
       Bitmap.__getitem__ b' idx = Bitmap.__getitem__ b idx) /\
    header_count b' = header_count b /\
    (header_k b <> 0 ->
     b' = b /\
     snd (fst (BloomFilter.__cinit__ (Some b) (Some k) w)) = w /\
     snd (BloomFilter.__cinit__ (Some b) (Some k) w) = Ok tt).
Proof.
  intros Hok Hs Hk.
  assert (Hsame : forall r,
            BloomFilter.bitmap (fst (fst r)) = Some b ->
            (header_k b <> 0 -> snd (fst r) = w /\ snd r = Ok tt) ->
            exists b',
              BloomFilter.bitmap (fst (fst r)) = Some b' /\
              Bitmap.size b' = Bitmap.size b /\
              Bitmap.fileno b' = Bitmap.fileno b /\ Bitmap.fileobj b' = Bitmap.fileobj b /\
              Bitmap.mmap b' = Bitmap.mmap b /\
              (forall idx, idx < 8 * Bitmap.size b - 32 ->
                 Bitmap.__getitem__ b' idx = Bitmap.__getitem__ b idx) /\
              header_count b' = header_count b /\
              (header_k b <> 0 -> b' = b /\ snd (fst r) = w /\ snd r = Ok tt)).
  { intros r Hr Hq. exists b. split; [exact Hr|]. do 6 (split; [reflexivity|]).
    intros Hz. split; [reflexivity | exact (Hq Hz)]. }
  destruct (Z.eq_dec (header_k b) 0) as [Hz|Hnz].
  - destruct (Z.lt_ge_cases k (2 ^ 32)) as [Hlt|Hge].
    + rewrite cinit_fresh by (assumption || lia).
      destruct (stamped_facts b k Hok Hs ltac:(lia)) as (_ & Hsize & _ & Hcount & _).
      exists (stamped b k). split.
      { cbn [fst snd]. destruct (snd (Bitmap.flush (stamped b k) w)); reflexivity. }
      split; [exact Hsize|]. do 3 (split; [reflexivity|]).
      split; [|split; [exact Hcount | intros Hc; contradiction]].
      intros idx Hidx. apply getitem_same_byte; [reflexivity|].
      intros Hpos. unfold stamped. cbn [Bitmap.region Bitmap.with_region].
      apply list_lookup_inserts_lt.
      assert (idx / 8 < Bitmap.size b - 4) by (apply Z.div_lt_upper_bound; lia).
      assert (0 <= idx / 8) by (apply Z.div_pos; lia). lia.
    + apply Hsame; [|intros Hc; contradiction].
      rewrite cinit_prefix by assumption. rewrite Hz. cbn [Z.eqb].
      unfold Bitmap.as_uint.
      replace ((k <? 0) || (2 ^ 32 <=? k)) with true
        by (symmetry; apply orb_true_iff; right; apply Z.leb_le; lia).
      reflexivity.
  - apply Hsame; rewrite cinit_existing by assumption; [reflexivity|].
    intros _. split; reflexivity.
Qed.

Lemma construction_writes_only_k_witness :
  header_count
    (default (anonymous 0)
       (BloomFilter.bitmap (new_filter (file_backed 3 (repeat Byte.x00 32)) 7))) = 0.
Proof.
  destruct (construction_writes_only_k (file_backed 3 (repeat Byte.x00 32)) 7 quiet)
    as (b' & Hb & _ & _ & _ & _ & _ & Hcount & _).
  - reflexivity.
  - change (Bitmap.size (file_backed 3 (repeat Byte.x00 32))) with 32. lia.
  - lia.
  - unfold new_filter. rewrite Hb. change (header_count b' = 0).
    rewrite Hcount. reflexivity.
Defined.

(** ** BloomFilter: the hash values *)

Section HashRangeFacts.

Import BloomFilter.

Lemma wrap64_range z : 0 <= wrap64 z < 2 ^ 64.
Proof. unfold wrap64. apply Z.mod_pos_bound. lia. Qed.

Lemma lxor_range a b :
  0 <= a < 2 ^ 64 -> 0 <= b < 2 ^ 64 -> 0 <= Z.lxor a b < 2 ^ 64.
Proof.
  intros Ha Hb. split; [apply Z.lxor_nonneg; lia|].
  destruct (Z.eq_dec (Z.lxor a b) 0) as [-> | Hnz]; [lia|].
  assert (Hpos : 0 < Z.lxor a b) by (pose proof (proj2 (Z.lxor_nonneg a b)); lia).
  apply Z.log2_lt_pow2; [exact Hpos|].
  pose proof (Z.log2_lxor a b ltac:(lia) ltac:(lia)) as Hl.
  assert (Hla : Z.log2 a < 64).
  { destruct (Z.eq_dec a 0) as [-> | ?]; [cbn; lia|]. apply Z.log2_lt_pow2; lia. }
  assert (Hlb : Z.log2 b < 64).
  { destruct (Z.eq_dec b 0) as [-> | ?]; [cbn; lia|]. apply Z.log2_lt_pow2; lia. }
  lia.
Qed.

Lemma shiftr_range a n : 0 <= a < 2 ^ 64 -> 0 <= n -> 0 <= Z.shiftr a n < 2 ^ 64.
Proof.
  intros Ha Hn. rewrite Z.shiftr_div_pow2 by exact Hn.
  assert (0 < 2 ^ n) by (apply Z.pow_pos_nonneg; lia).
  split; [apply Z.div_pos; lia|].
  apply Z.div_lt_upper_bound; [lia|]. nia.
Qed.

Lemma mix_range st v : in_range st -> 0 <= v < 256 -> in_range (mix st v).
Proof.
  destruct st as [[[a b] c] d]. intros (Ha & Hb & Hc & Hd) Hv.
  assert (Hv64 : 0 <= v < 2 ^ 64) by lia.
  unfold mix, in_range. repeat split;
    try apply wrap64_range;
    repeat (apply lxor_range || apply wrap64_range || (apply shiftr_range; [|lia])
            || assumption).
Qed.

Lemma fold_mix_range (vs : list Z) : forall st,
  in_range st -> Forall (fun v => 0 <= v < 256) vs -> in_range (fold_left mix vs st).
Proof.
  induction vs as [|v vs IH]; intros st Hst Hvs; [exact Hst|].
  cbn [fold_left]. apply Forall_cons in Hvs as [Hv Hvs].
  apply IH; [apply mix_range; assumption | exact Hvs].
Qed.

Lemma salt_bytes_range salt : Forall (fun v => 0 <= v < 256) (salt_bytes salt).
Proof.
  unfold salt_bytes. apply Forall_forall. intros v Hv.
  apply list_elem_of_In, in_map_iff in Hv as (j & <- & _).
  change 255 with (Z.ones 8). rewrite Z.land_ones by lia.
  apply Z.mod_pos_bound. lia.
Qed.

Lemma key_bytes_range (key : list byte) :
  Forall (fun v => 0 <= v < 256) (map byte.unsigned key).
Proof.
  apply Forall_forall. intros v Hv.
  apply list_elem_of_In, in_map_iff in Hv as (c & <- & _).
  apply byte.unsigned_range.
Qed.

Lemma round_range key i salt : in_range (round key i salt).
Proof.
  unfold round. apply fold_mix_range; [|apply key_bytes_range].
  assert (Hlen := wrap64_range (Z.of_nat (length key))).
  destruct (0 <? i)%nat.
  - apply fold_mix_range; [|apply salt_bytes_range].
    unfold in_range. repeat split; try lia; apply wrap64_range.
  - unfold in_range. repeat split; lia.
Qed.

Lemma hash_values_range key n : forall i salt,
  Forall (fun h => 0 <= h < 2 ^ 64) (hash_values key n i salt).
Proof.
  induction n as [|n IH]; intros i salt; [constructor|].
  cbn [hash_values]. pose proof (round_range key i salt) as Hr.
  destruct (round key i salt) as [[[a b] c] d]. destruct Hr as (Ha & Hb & Hc & Hd).
  repeat (apply Forall_cons; split; [assumption|]). apply IH.
Qed.

End HashRangeFacts.

(** X20. [_compute_hashes] stays inside the scratch buffer and fills it with
    [size_t] values: for [k >= 1] and a buffer of [8 * k] slots the call
    returns a buffer of the same length; it has written the slots below
    [4 * rounds k], which are at least the [k] slots that [add] and
    [__contains__] read and at most [k + 3]; the slots from there on hold
    what they held, and every written slot holds a value in [0, 2^64). *)
Theorem hashes_fit_size_t (f : BloomFilter.t) (key : list byte) :
  1 <= BloomFilter.k_num f ->
  Z.of_nat (length (BloomFilter.hashes f)) = BloomFilter.k_num f * 8 ->
  exists hs,
    BloomFilter._compute_hashes f key = Ok hs /\
    length hs = length (BloomFilter.hashes f) /\
    BloomFilter.k_num f <= 4 * BloomFilter.rounds (BloomFilter.k_num f)
      <= BloomFilter.k_num f + 3 /\
    (forall j : nat, 4 * BloomFilter.rounds (BloomFilter.k_num f) <= Z.of_nat j ->
       hs !! j = BloomFilter.hashes f !! j) /\
    (forall j : nat, Z.of_nat j < 4 * BloomFilter.rounds (BloomFilter.k_num f) ->
       exists h, hs !! j = Some h /\ 0 <= h < 2 ^ 64).
Proof.
  intros Hk Hlen.
  pose proof (rounds_bounds (BloomFilter.k_num f) ltac:(lia)) as Hr.
  pose proof (length_key_hashes (BloomFilter.k_num f) key ltac:(lia)) as Hl.
  eexists. split; [apply compute_hashes_spec; assumption|].
  split.
  { rewrite length_app, length_drop. lia. }
  split; [exact Hr|]. split.
  - intros j Hj. rewrite lookup_app_r by lia. rewrite lookup_drop. f_equal. lia.
  - intros j Hj.
    destruct (lookup_lt_is_Some_2 (key_hashes (BloomFilter.k_num f) key) j) as [h Hh]; [lia|].
    exists h. split; [apply lookup_app_l_Some; exact Hh|].
    pose proof (hash_values_range (BloomFilter.c_str key)
                  (Z.to_nat (BloomFilter.rounds (BloomFilter.k_num f))) 0%nat 0) as Hall.
    rewrite Forall_forall in Hall. apply Hall.
    apply list_elem_of_lookup. exists j. exact Hh.
Qed.

Lemma hashes_fit_size_t_witness :
  exists hs,
    BloomFilter._compute_hashes on_file key_test = Ok hs /\ length hs = 56%nat.
Proof.
  destruct (hashes_fit_size_t on_file key_test) as (hs & Hhs & Hlen & _).
  - vm_compute. discriminate.
  - reflexivity.
  - exists hs. split; [exact Hhs | exact Hlen].
Defined.

(** ** Bitmap: the zero-fill of a new file *)

(** X21. The zero-fill loop of [Bitmap.__cinit__] ends and pads the file to
    [length] without touching what it holds: given one turn more than
    [length - size] takes in steps of 100000, the loop returns the old
    contents followed by [length - size] zero bytes (none when the file is
    already long enough, which is then left at its size); every write has
    between 1 and 100000 bytes, the writes add up to the missing bytes and
    their number is the missing bytes divided by 100000, rounded up. *)
Theorem zero_fill_pads (fuel : nat) (len : Z) (file : list byte) :
  (0 < fuel)%nat ->
  len - Z.of_nat (length file) <= 100000 * (Z.of_nat fuel - 1) ->
  exists writes,
    zero_fill fuel len file
    = Some (file ++ repeat Byte.x00 (Z.to_nat (len - Z.of_nat (length file))), writes) /\
    Forall (fun n => 0 < n <= 100000) writes /\
    fold_right Z.add 0 writes = Z.max 0 (len - Z.of_nat (length file)) /\
    Z.of_nat (length writes)
    = (Z.max 0 (len - Z.of_nat (length file)) + 99999) / 100000.
Proof.
  revert len file. induction fuel as [|fuel IH]; intros len file Hf Hd; [lia|].
  cbn [zero_fill].
  destruct (Z.ltb_spec 0 (len - Z.of_nat (length file))) as [Hpos|Hneg].
  - set (d := len - Z.of_nat (length file)) in *.
    set (n := Z.min d 100000).
    assert (Hn : 0 < n <= 100000) by (unfold n; lia).
    assert (Hlen' : Z.of_nat (length (file ++ repeat Byte.x00 (Z.to_nat n)))
                    = Z.of_nat (length file) + n).
    { rewrite length_app, repeat_length. lia. }
    destruct (IH len (file ++ repeat Byte.x00 (Z.to_nat n))) as (ws & Hz & Hall & Hsum & Hcnt).
    { lia. }
    { rewrite Hlen'. unfold n. lia. }
    rewrite Hz. exists (n :: ws). rewrite Hlen' in *.
    split; [|split; [|split]].
    + f_equal. f_equal. rewrite <- app_assoc. f_equal.
      rewrite <- repeat_app. f_equal. unfold d. lia.
    + apply Forall_cons. split; assumption.
    + cbn [fold_right]. rewrite Hsum. unfold d. lia.
    + cbn [length]. rewrite Nat2Z.inj_succ, Hcnt.
      replace (len - (Z.of_nat (length file) + n)) with (d - n) by (unfold d; lia).
      rewrite (Z.max_r 0 d) by lia.
      destruct (Z.le_gt_cases d 100000) as [Hle|Hgt].
      * replace (d - n) with 0 by (unfold n; lia).
        replace (Z.succ ((Z.max 0 0 + 99999) / 100000)) with 1 by reflexivity.
        apply (Z.div_unique (d + 99999) 100000 1 (d - 1)); lia.
      * replace (d - n) with (d - 100000) by (unfold n; lia).
        rewrite Z.max_r by lia.
        replace (d + 99999) with (d - 100000 + 99999 + 1 * 100000) by lia.
        rewrite Z.div_add by lia. lia.
  - exists []. replace (Z.to_nat (len - Z.of_nat (length file))) with 0%nat by lia.
    cbn [repeat]. rewrite app_nil_r. split; [reflexivity|].
    split; [constructor|]. rewrite Z.max_l by lia. split; reflexivity.
Qed.

Lemma zero_fill_pads_witness :
  exists writes,
    zero_fill 2 5 [Byte.x01; Byte.x02]
    = Some ([Byte.x01; Byte.x02; Byte.x00; Byte.x00; Byte.x00], writes).
Proof.
  destruct (zero_fill_pads 2 5 [Byte.x01; Byte.x02]) as (writes & H & _).
  - lia.
  - cbn. lia.
  - exists writes. exact H.
Defined.

(** ** BloomFilter: what a filter answers *)

Section CoverFacts.

Import BloomFilter.




End CoverFacts.


